(** * Dataview rendering core: [src/ui/markdown.tsx]

    A shallow embedding of the three pieces of logic in the file:
    - [Lit], the recursive renderer of literal values;
    - the paragraph-unwrapping loop of the [Markdown] component;
    - [useIndexBackedState], the hook that recomputes a view when the index
      changes, together with the mount / unmount life cycle around it. *)

From Stdlib Require Import ZArith List String Ascii Bool Arith Lia DecimalString.
From Equations Require Import Equations.
From Equations.Prop Require Import Logic.
Import ListNotations.

Set Warnings "-register-all".

Local Open Scope string_scope.
Local Open Scope Z_scope.

(** ** Settings (the fields of [DataviewSettings] read by this file) *)

Record DataviewSettings := {
  maxRecursiveRenderDepth : Z;
  renderNullAs : string;
  refreshEnabled : bool
}.

(** ** The value model

    [Literal] and the [Values.isX] tests come from [data-model/value], the
    formatters from [util/normalize] and [util/locale].  They are
    collaborators of this file: their payload types and functions are the
    fields of an interface. *)

Class ValueModel := {
  JsNumber : Type;
  DateTime : Type;
  Duration : Type;
  Link : Type;
  HtmlElement : Type;
  (** [ "" + value ] on a number *)
  numberToString : JsNumber -> string;
  renderMinimalDate : DateTime -> DataviewSettings -> string -> string;
  renderMinimalDuration : Duration -> string;
  currentLocale : string;
  (** [value.markdown()] on a link *)
  link_markdown : Link -> string;
  (** the answer of [Values.isNull] on [undefined] *)
  isNull_undefined : bool
}.

Section Renderer.

Context {VM : ValueModel}.

(** Modelled from the spec: the type [Literal] of [data-model/value] is not
    part of this file.  Its variants are those of the value model, one per
    [Values.isX] test of [Lit], so that the tests are mutually exclusive.
    [LUndefined] is what reading a property that does not exist gives.  An
    object carries the name of its constructor ([None] when it has none) and
    its own enumerable entries in insertion order.  A list is a plain array:
    the proxies of [api/data-array] are not modelled. *)
Inductive Literal : Type :=
| LUndefined
| LNull
| LString (s : string)
| LNumber (n : JsNumber)
| LBoolean (b : bool)
| LDate (d : DateTime)
| LDuration (d : Duration)
| LLink (l : Link)
| LHtml (e : HtmlElement)
| LFunction
| LArray (elements : list Literal)
| LObject (constructor_name : option string) (entries : list (string * Literal)).

(** The rendered tree.  [VLit] is a nested [<Lit .../>] element: it keeps
    the props it was created with next to what it rendered to, so that the
    tree shows every invocation of the renderer. *)
Inductive VNode : Type :=
| VText (s : string)
| VFragment (children : list VNode)
| VElement (tag cls : string) (children : list VNode)
| VMarkdown (content sourcePath : string) (inline : bool)
| VEmbedHtml (element : HtmlElement)
| VLit (value : Literal) (inline : bool) (depth : Z) (rendered : VNode).

(** Number of [<Lit/>] elements in a rendered tree: how many times the
    renderer ran below the root. *)
Fixpoint nested_lits (n : VNode) {struct n} : nat :=
  match n with
  | VText _ => O
  | VMarkdown _ _ _ => O
  | VEmbedHtml _ => O
  | VFragment children | VElement _ _ children =>
      (fix total (nodes : list VNode) : nat :=
         match nodes with
         | [] => O
         | c :: rest => (nested_lits c + total rest)%nat
         end) children
  | VLit _ _ _ rendered => S (nested_lits rendered)
  end.

Fixpoint nested_lits_all (nodes : list VNode) : nat :=
  match nodes with
  | [] => O
  | c :: rest => (nested_lits c + nested_lits_all rest)%nat
  end.

(** The [<Lit/>] elements of a tree that are not inside another one: the
    children a collection renders. *)
Fixpoint direct_lits (n : VNode) {struct n} : list VNode :=
  match n with
  | VText _ => []
  | VMarkdown _ _ _ => []
  | VEmbedHtml _ => []
  | VFragment children | VElement _ _ children =>
      (fix gather (nodes : list VNode) : list VNode :=
         match nodes with
         | [] => []
         | c :: rest => (direct_lits c ++ gather rest)%list
         end) children
  | VLit _ _ _ _ => [n]
  end.

Fixpoint direct_lits_all (nodes : list VNode) : list VNode :=
  match nodes with
  | [] => []
  | c :: rest => (direct_lits c ++ direct_lits_all rest)%list
  end.

(** The text nodes a tree writes itself, outside its nested [<Lit/>]
    elements, in document order. *)
Fixpoint own_texts (n : VNode) {struct n} : list string :=
  match n with
  | VText s => [s]
  | VMarkdown _ _ _ => []
  | VEmbedHtml _ => []
  | VFragment children | VElement _ _ children =>
      (fix gather (nodes : list VNode) : list string :=
         match nodes with
         | [] => []
         | c :: rest => (own_texts c ++ gather rest)%list
         end) children
  | VLit _ _ _ _ => []
  end.

Fixpoint own_texts_all (nodes : list VNode) : list string :=
  match nodes with
  | [] => []
  | c :: rest => (own_texts c ++ own_texts_all rest)%list
  end.

(** The text of a rendered tree, reading a [Markdown] element as the text
    it is given and an embedded element as nothing. *)
Fixpoint rendered_text (n : VNode) {struct n} : string :=
  match n with
  | VText s => s
  | VMarkdown content _ _ => content
  | VEmbedHtml _ => ""
  | VFragment children | VElement _ _ children =>
      (fix gather (nodes : list VNode) : string :=
         match nodes with
         | [] => ""
         | c :: rest => rendered_text c ++ gather rest
         end) children
  | VLit _ _ _ rendered => rendered_text rendered
  end.

(** How deep [<Lit/>] elements are nested inside one another. *)
Fixpoint lit_height (n : VNode) {struct n} : nat :=
  match n with
  | VText _ => O
  | VMarkdown _ _ _ => O
  | VEmbedHtml _ => O
  | VFragment children | VElement _ _ children =>
      (fix tallest (nodes : list VNode) : nat :=
         match nodes with
         | [] => O
         | c :: rest => Nat.max (lit_height c) (tallest rest)
         end) children
  | VLit _ _ _ rendered => S (lit_height rendered)
  end.

Fixpoint lit_height_all (nodes : list VNode) : nat :=
  match nodes with
  | [] => O
  | c :: rest => Nat.max (lit_height c) (lit_height_all rest)
  end.

(** A test that holds of a node and of every node below it, the renderings
    of nested [<Lit/>] elements included. *)
Fixpoint every (P : VNode -> bool) (n : VNode) {struct n} : bool :=
  P n &&
  match n with
  | VText _ => true
  | VMarkdown _ _ _ => true
  | VEmbedHtml _ => true
  | VFragment children | VElement _ _ children =>
      (fix all (nodes : list VNode) : bool :=
         match nodes with
         | [] => true
         | c :: rest => every P c && all rest
         end) children
  | VLit _ _ _ rendered => every P rendered
  end.

Fixpoint every_all (P : VNode -> bool) (nodes : list VNode) : bool :=
  match nodes with
  | [] => true
  | c :: rest => every P c && every_all P rest
  end.

(** Number of values in a value: itself, and for a list or an object the
    values it holds, at every depth. *)
Fixpoint value_size (v : Literal) {struct v} : nat :=
  match v with
  | LArray elements =>
      S ((fix total (l : list Literal) : nat :=
            match l with
            | [] => O
            | x :: rest => (value_size x + total rest)%nat
            end) elements)
  | LObject _ entries =>
      S ((fix total (l : list (string * Literal)) : nat :=
            match l with
            | [] => O
            | (_, x) :: rest => (value_size x + total rest)%nat
            end) entries)
  | _ => 1%nat
  end.

(** [array.map((x, index) => ...)] *)
Fixpoint mapi_from {A B : Type} (i : nat) (f : A -> nat -> B) (l : list A) : list B :=
  match l with
  | [] => []
  | x :: l' => f x i :: mapi_from (S i) f l'
  end.

Definition mapi {A B : Type} (f : A -> nat -> B) (l : list A) : list B :=
  mapi_from 0 f l.

(** [Object.entries(value)]: one two-element array [[key, value]] per entry. *)
Definition Object_entries (entries : list (string * Literal)) : list Literal :=
  map (fun kv => LArray [LString (fst kv); snd kv]) entries.

(** [Object.keys(value)] *)
Definition Object_keys (entries : list (string * Literal)) : list string :=
  map fst entries.

(** Property read [o.name], for the names this file reads ([key] and
    [value]).  A plain object answers with its entry of that name; an array
    has neither an own nor an inherited property of these names, and on any
    other value they are absent as well. *)
Definition get_property (o : Literal) (name : string) : Literal :=
  match o with
  | LObject _ entries =>
      match find (fun kv => String.eqb (fst kv) name) entries with
      | Some kv => snd kv
      | None => LUndefined
      end
  | _ => LUndefined
  end.

(** A JSX expression child [{e}]: a string becomes a text node, [null],
    [undefined] and booleans produce nothing. *)
Definition jsx_child (v : Literal) : list VNode :=
  match v with
  | LString s => [VText s]
  | LNumber n => [VText (numberToString n)]
  | _ => []
  end.

(** [value?.constructor?.name && value?.constructor?.name != "Object"] *)
Definition is_class_instance (constructor_name : option string) : bool :=
  match constructor_name with
  | Some name => negb (String.eqb name "") && negb (String.eqb name "Object")
  | None => false
  end.

Definition name_or_empty (constructor_name : option string) : string :=
  match constructor_name with Some name => name | None => "" end.

Variable settings : DataviewSettings.

(** [Lit]: the component function.  The context is read for its settings
    only; [sourcePath] is handed to [Markdown] unchanged. *)
Equations? Lit (value : Literal) (sourcePath : string) (inline : bool) (depth : Z)
  : VNode by wf (Z.to_nat (maxRecursiveRenderDepth settings - depth)) lt :=
Lit value sourcePath inline depth with Z_lt_ge_dec depth (maxRecursiveRenderDepth settings) := {
  | right _ => VFragment [VText "..."]
  | left below with value := {
    | LNull => VMarkdown (renderNullAs settings) sourcePath false
    | LString s => VMarkdown s sourcePath false
    | LNumber n => VFragment [VText "$"; VText (numberToString n)]
    | LBoolean b => VFragment [VText "$"; VText (if b then "true" else "false")]
    | LDate d => VFragment [VText "$"; VText (renderMinimalDate d settings currentLocale)]
    | LDuration d => VFragment [VText "$"; VText (renderMinimalDuration d)]
    | LLink l => VMarkdown (link_markdown l) sourcePath false
    | LHtml e => VEmbedHtml e
    | LFunction => VFragment [VText "<function>"]
    | LArray elements =>
        if inline then
          VElement "ul" "dataview dataview-ul dataview-result-list-ul"
            (map (fun subvalue =>
                    VElement "li" "dataview-result-list-li"
                      [VLit subvalue inline (depth + 1)
                         (Lit subvalue sourcePath inline (depth + 1))])
                 elements)
        else if (List.length elements =? 0)%nat then VFragment [VText "<Empty List>"]
        else
          VElement "span" "dataview dataview-result-list-span"
            (mapi (fun subvalue index =>
                     VFragment
                       [VText "$"; VText (if (index =? 0)%nat then "" else ", ");
                        VLit subvalue inline (depth + 1)
                          (Lit subvalue sourcePath inline (depth + 1))])
                  elements)
    | LObject constructor_name entries =>
        if is_class_instance constructor_name then
          VFragment [VText "<$"; VText (name_or_empty constructor_name); VText ">"]
        else if inline then
          VElement "ul" "dataview dataview-ul dataview-result-object-ul"
            (map (fun entry =>
                    VElement "li" "dataview dataview-li dataview-result-object-li"
                      ([VText "$"] ++ jsx_child (get_property entry "key")
                       ++ [VText ":"; VText " ";
                           VLit (get_property entry "value") inline (depth + 1)
                             (Lit (get_property entry "value") sourcePath inline (depth + 1))]))
                 (Object_entries entries))
        else if (List.length (Object_keys entries) =? 0)%nat then VFragment [VText "<Empty Object>"]
        else
          VElement "span" "dataview dataview-result-object-span"
            (mapi (fun entry index =>
                     VFragment
                       ([VText "$"; VText (if (index =? 0)%nat then "" else ", "); VText "$"]
                        ++ jsx_child (get_property entry "key")
                        ++ [VText ":"; VText " ";
                            VLit (get_property entry "value") inline (depth + 1)
                              (Lit (get_property entry "value") sourcePath inline (depth + 1))]))
                  (Object_entries entries))
    | LUndefined =>
        if isNull_undefined then VMarkdown (renderNullAs settings) sourcePath false
        else VFragment [VText "<Unrecognized: $"; VText ">"]
    }
  }.
Proof.
  all: lia.
Qed.

End Renderer.

(** ** The DOM below the container of [Markdown]

    What the host's markdown renderer leaves in the container: text nodes
    and elements.  A node is addressed by the path of child indices that
    leads to it from the container. *)

Inductive Node : Type :=
| TextNode (data : string)
| Element (tagName : string) (childNodes : list Node).

Definition Path := list nat.

Definition shift (p : Path) : Path :=
  match p with
  | [] => []
  | i :: q => S i :: q
  end.

(** First element with the given tag name, in document order, in the
    subtree of a node ([matches_in]) or in a sequence of siblings
    ([first_match]). *)
Fixpoint matches_in (selector : string) (n : Node) {struct n} : option Path :=
  match n with
  | TextNode _ => None
  | Element tag children =>
      if String.eqb tag selector then Some []
      else
        (fix first_match (nodes : list Node) : option Path :=
           match nodes with
           | [] => None
           | c :: rest =>
               match matches_in selector c with
               | Some p => Some (O :: p)
               | None => option_map shift (first_match rest)
               end
           end) children
  end.

Fixpoint first_match (selector : string) (nodes : list Node) : option Path :=
  match nodes with
  | [] => None
  | c :: rest =>
      match matches_in selector c with
      | Some p => Some (O :: p)
      | None => option_map shift (first_match selector rest)
      end
  end.

(** [container.querySelector(selector)]: descendants only. *)
Definition querySelector (selector : string) (container : Node) : option Path :=
  match container with
  | TextNode _ => None
  | Element _ children => first_match selector children
  end.

Fixpoint node_at (nodes : list Node) (p : Path) {struct p} : option Node :=
  match p with
  | [] => None
  | i :: q =>
      match nth_error nodes i with
      | None => None
      | Some n =>
          match q with
          | [] => Some n
          | _ :: _ =>
              match n with
              | Element _ children => node_at children q
              | TextNode _ => None
              end
          end
      end
  end.

(** [paragraph.childNodes], as the array [Array.from] makes of it. *)
Definition childNodes_at (container : Node) (p : Path) : list Node :=
  match container with
  | TextNode _ => []
  | Element _ children =>
      match node_at children p with
      | Some (Element _ cs) => cs
      | _ => []
      end
  end.

(** [node.replaceWith(...replacement)] for the node at path [p]. *)
Fixpoint replace_in (nodes : list Node) (p : Path) (replacement : list Node)
  {struct p} : list Node :=
  match p with
  | [] => nodes
  | i :: q =>
      match nth_error nodes i with
      | None => nodes
      | Some n =>
          match q with
          | [] => firstn i nodes ++ replacement ++ skipn (S i) nodes
          | _ :: _ =>
              match n with
              | Element tag children =>
                  firstn i nodes ++ Element tag (replace_in children q replacement)
                    :: skipn (S i) nodes
              | TextNode _ => nodes
              end
          end
      end
  end.

Definition replaceWith (container : Node) (p : Path) (replacement : list Node) : Node :=
  match container with
  | TextNode _ => container
  | Element tag children => Element tag (replace_in children p replacement)
  end.

(** Number of elements with the given tag name among the descendants. *)
Fixpoint count_in (selector : string) (n : Node) {struct n} : nat :=
  match n with
  | TextNode _ => O
  | Element tag children =>
      ((if String.eqb tag selector then 1 else 0)
       + (fix count_all (nodes : list Node) : nat :=
            match nodes with
            | [] => O
            | c :: rest => count_in selector c + count_all rest
            end) children)%nat
  end.

Fixpoint count_all (selector : string) (nodes : list Node) : nat :=
  match nodes with
  | [] => O
  | c :: rest => (count_in selector c + count_all selector rest)%nat
  end.

Definition count_descendants (selector : string) (container : Node) : nat :=
  match container with
  | TextNode _ => O
  | Element _ children => count_all selector children
  end.

(** [textContent] *)
Fixpoint textContent (n : Node) {struct n} : string :=
  match n with
  | TextNode data => data
  | Element _ children =>
      (fix text_all (nodes : list Node) : string :=
         match nodes with
         | [] => ""
         | c :: rest => textContent c ++ text_all rest
         end) children
  end.

Fixpoint text_all (nodes : list Node) : string :=
  match nodes with
  | [] => ""
  | c :: rest => textContent c ++ text_all rest
  end.

(** The forest a node stands for once every element with the given tag name
    is replaced by its children, at every depth. *)
Fixpoint splice (selector : string) (n : Node) {struct n} : list Node :=
  match n with
  | TextNode _ => [n]
  | Element tag children =>
      let inner :=
        (fix splice_all (nodes : list Node) : list Node :=
           match nodes with
           | [] => []
           | c :: rest => (splice selector c ++ splice_all rest)%list
           end) children in
      if String.eqb tag selector then inner else [Element tag inner]
  end.

Fixpoint splice_all (selector : string) (nodes : list Node) : list Node :=
  match nodes with
  | [] => []
  | c :: rest => (splice selector c ++ splice_all selector rest)%list
  end.

(** Induction on nodes with the hypothesis on every child. *)
Lemma Node_forall_ind (P : Node -> Prop) :
  (forall data, P (TextNode data)) ->
  (forall tag children, Forall P children -> P (Element tag children)) ->
  forall n, P n.
Proof.
  intros Htext Helem.
  fix self 1.
  intros [data | tag children].
  - apply Htext.
  - apply Helem.
    induction children as [| c rest IH]; constructor; [apply self | exact IH].
Qed.

Lemma matches_in_Element selector tag children :
  matches_in selector (Element tag children) =
  if String.eqb tag selector then Some [] else first_match selector children.
Proof.
  simpl. destruct (String.eqb tag selector); [reflexivity |].
  induction children as [| c rest IH]; simpl; [reflexivity |].
  destruct (matches_in selector c); [reflexivity |].
  now rewrite IH.
Qed.

Lemma count_in_Element selector tag children :
  count_in selector (Element tag children) =
  ((if String.eqb tag selector then 1 else 0) + count_all selector children)%nat.
Proof.
  simpl. f_equal.
  induction children as [| c rest IH]; simpl; [reflexivity |].
  now rewrite IH.
Qed.

Lemma textContent_Element tag children :
  textContent (Element tag children) = text_all children.
Proof.
  simpl. induction children as [| c rest IH]; simpl; [reflexivity |].
  now rewrite IH.
Qed.

Lemma splice_Element selector tag children :
  splice selector (Element tag children) =
  if String.eqb tag selector then splice_all selector children
  else [Element tag (splice_all selector children)].
Proof.
  simpl.
  assert (H : (fix splice_all (nodes : list Node) : list Node :=
                 match nodes with
                 | [] => []
                 | c :: rest => (splice selector c ++ splice_all rest)%list
                 end) children = splice_all selector children).
  { induction children as [| c rest IH]; simpl; [reflexivity | now rewrite IH]. }
  now rewrite H.
Qed.

Lemma splice_all_app selector xs ys :
  splice_all selector (xs ++ ys) = (splice_all selector xs ++ splice_all selector ys)%list.
Proof.
  induction xs as [| x xs IH]; simpl; [reflexivity |].
  now rewrite IH, app_assoc.
Qed.

Lemma splice_all_cons selector c rest :
  splice_all selector (c :: rest) = (splice selector c ++ splice_all selector rest)%list.
Proof. reflexivity. Qed.

Lemma count_all_app selector xs ys :
  count_all selector (xs ++ ys) = (count_all selector xs + count_all selector ys)%nat.
Proof.
  induction xs as [| x xs IH]; simpl; [reflexivity |].
  rewrite IH. lia.
Qed.

Lemma string_app_assoc (a b c : string) : (a ++ b) ++ c = a ++ (b ++ c).
Proof.
  induction a as [| ch a IH]; simpl; [reflexivity | now rewrite IH].
Qed.

Lemma text_all_app xs ys : text_all (xs ++ ys) = text_all xs ++ text_all ys.
Proof.
  induction xs as [| x xs IH]; simpl; [reflexivity |].
  rewrite IH. now rewrite string_app_assoc.
Qed.

(** What [first_match] finds is an element with the selected tag, and
    replacing it by its children removes exactly one such element and keeps
    the text. *)
Definition found_and_removed (selector : string) (nodes : list Node) (p : Path) : Prop :=
  exists i q cs,
    p = i :: q /\
    node_at nodes p = Some (Element selector cs) /\
    S (count_all selector (replace_in nodes p cs)) = count_all selector nodes /\
    text_all (replace_in nodes p cs) = text_all nodes /\
    splice_all selector (replace_in nodes p cs) = splice_all selector nodes.

Lemma count_all_cons selector c rest :
  count_all selector (c :: rest) = (count_in selector c + count_all selector rest)%nat.
Proof. reflexivity. Qed.

Lemma text_all_cons c rest : text_all (c :: rest) = textContent c ++ text_all rest.
Proof. reflexivity. Qed.

Lemma found_and_removed_here selector cs rest :
  found_and_removed selector (Element selector cs :: rest) [O].
Proof.
  exists O, [], cs.
  change (node_at (Element selector cs :: rest) [O]) with (Some (Element selector cs)).
  change (replace_in (Element selector cs :: rest) [O] cs) with ((cs ++ rest)%list).
  repeat split.
  - rewrite count_all_app, count_all_cons, count_in_Element, String.eqb_refl. lia.
  - now rewrite text_all_app, text_all_cons, textContent_Element.
  - now rewrite splice_all_app, splice_all_cons, splice_Element, String.eqb_refl.
Qed.

Lemma found_and_removed_below selector tag children rest p :
  String.eqb tag selector = false ->
  found_and_removed selector children p ->
  found_and_removed selector (Element tag children :: rest) (O :: p).
Proof.
  intros Htag (i & q & cs & -> & Hat & Hcount & Htext & Hsplice).
  exists O, (i :: q), cs.
  change (node_at (Element tag children :: rest) (O :: i :: q))
    with (node_at children (i :: q)).
  change (replace_in (Element tag children :: rest) (O :: i :: q) cs)
    with (Element tag (replace_in children (i :: q) cs) :: rest).
  repeat split.
  - exact Hat.
  - rewrite !count_all_cons, !count_in_Element, Htag. lia.
  - rewrite !text_all_cons, !textContent_Element. now rewrite Htext.
  - rewrite !splice_all_cons, !splice_Element, Htag. now rewrite Hsplice.
Qed.

Lemma found_and_removed_later selector c rest p :
  found_and_removed selector rest p ->
  found_and_removed selector (c :: rest) (shift p).
Proof.
  intros (i & q & cs & -> & Hat & Hcount & Htext & Hsplice).
  exists (S i), q, cs. change (shift (i :: q)) with (S i :: q).
  split; [reflexivity |].
  assert (Hnode : node_at (c :: rest) (S i :: q) = node_at rest (i :: q)) by reflexivity.
  assert (Hrepl : replace_in (c :: rest) (S i :: q) cs = c :: replace_in rest (i :: q) cs).
  { simpl. destruct (nth_error rest i) as [n |]; [| reflexivity].
    destruct q as [| j q']; [reflexivity |].
    destruct n; reflexivity. }
  rewrite Hnode, Hrepl, !count_all_cons, !text_all_cons, !splice_all_cons.
  repeat split; [exact Hat | lia | now rewrite Htext | now rewrite Hsplice].
Qed.

Lemma first_match_found selector nodes :
  forall p, first_match selector nodes = Some p -> found_and_removed selector nodes p.
Proof.
  assert (Hnode : forall n, forall p, matches_in selector n = Some p ->
            (p = [] /\ exists cs, n = Element selector cs) \/
            (exists tag children, n = Element tag children /\
               String.eqb tag selector = false /\
               found_and_removed selector children p)).
  { induction n as [data | tag children IH] using Node_forall_ind; intros p Hp.
    - discriminate.
    - rewrite matches_in_Element in Hp.
      destruct (String.eqb tag selector) eqn:Htag.
      + left. apply String.eqb_eq in Htag. subst tag.
        split; [congruence | now exists children].
      + right. exists tag, children. repeat split; [exact Htag |].
        clear Htag. revert p Hp.
        induction IH as [| c rest Hc _ IHrest]; intros p Hp; simpl in Hp; [discriminate |].
        destruct (matches_in selector c) as [p0 |] eqn:Hm.
        * injection Hp as <-.
          destruct (Hc _ eq_refl) as [[-> [cs ->]] | (tag' & ch' & -> & Htag' & Hfound)].
          -- apply found_and_removed_here.
          -- now apply found_and_removed_below.
        * destruct (first_match selector rest) as [p1 |] eqn:Hr; [| discriminate].
          injection Hp as <-. apply found_and_removed_later. now apply IHrest. }
  induction nodes as [| c rest IH]; intros p Hp; simpl in Hp; [discriminate |].
  destruct (matches_in selector c) as [p0 |] eqn:Hm.
  - injection Hp as <-.
    destruct (Hnode _ _ Hm) as [[-> [cs ->]] | (tag' & ch' & -> & Htag' & Hfound)].
    + apply found_and_removed_here.
    + now apply found_and_removed_below.
  - destruct (first_match selector rest) as [p1 |] eqn:Hr; [| discriminate].
    injection Hp as <-. apply found_and_removed_later. now apply IH.
Qed.

Lemma querySelector_removes_one selector container p :
  querySelector selector container = Some p ->
  S (count_descendants selector (replaceWith container p (childNodes_at container p)))
  = count_descendants selector container.
Proof.
  destruct container as [data | tag children]; simpl; [discriminate |].
  intros Hp. destruct (first_match_found _ _ _ Hp) as (i & q & cs & -> & Hat & Hcount & _).
  rewrite Hat. exact Hcount.
Qed.

(** The loop of the [then] callback:
    [let paragraph = container.querySelector("p"); while (paragraph) {...}] *)
Equations? unwrap_paragraphs (container : Node) : Node
  by wf (count_descendants "p" container) lt :=
unwrap_paragraphs container with inspect (querySelector "p" container) := {
  | exist _ (Some paragraph) found =>
      unwrap_paragraphs (replaceWith container paragraph (childNodes_at container paragraph))
  | exist _ None nothing => container
  }.
Proof.
  pose proof (querySelector_removes_one _ _ _ found). lia.
Qed.

(** The callback passed to [then] in the effect of [Markdown], as a function
    of what the markdown renderer left in [container.current] ([None] when
    the ref is empty); the result is the container afterwards. *)
Definition Markdown_then (inline : bool) (current : option Node) : option Node :=
  match current with
  | None => None
  | Some container =>
      if negb inline then Some container
      else Some (unwrap_paragraphs container)
  end.

(** ** [useIndexBackedState] and the life cycle around it

    The hook lives in a system made of the index, the container, the
    settings, the two event registries it subscribes to, its own three
    [useState] cells and its effect, and the promises of the [compute()]
    calls still in flight.  Everything that can happen to it is an [Event].

    The hooks of preact behave as documented: a [useState] cell keeps its
    value from one render to the next and its setter stores the new value;
    an effect with dependencies runs after the first render and after a
    render in which a dependency changed, its previous cleanup first, and
    the last cleanup runs at unmount; an unmounted component is not rendered
    again.  The effect is run in the same step as the render that schedules
    it. *)

Definition Container := nat.
Definition EventRef := nat.
Definition Promise := nat.

(** The closure [refreshOperation]: it reads [index.revision],
    [container.isShown()] and [settings.refreshEnabled] when it is called,
    but [lastReload] and [container] are the values of the render in which
    the effect created it. *)
Record RefreshOperation := {
  closure_lastReload : Z;
  closure_container : Container
}.

Inductive Phase := NotMounted | Mounted | Unmounted.

Section IndexBackedState.

Variable T : Type.

(** What the hook does to the outside, most recent first. *)
Inductive Action : Type :=
| FirstLoad (promise : Promise)
| Recompute (promise : Promise)
| SetLastReload (revision : Z)
| UpdateState (value : T)
| Subscribed (ref : EventRef)
| Released (ref : EventRef).

Record System := {
  index_revision : Z;
  isShown : Container -> bool;
  settings : DataviewSettings;
  (** handlers of "dataview:refresh-views" on [app.workspace] *)
  workspace_handlers : list (EventRef * RefreshOperation);
  (** callbacks registered with [onNodeInserted] *)
  node_handlers : list (EventRef * RefreshOperation);
  next_id : nat;
  phase : Phase;
  initialized : bool;
  state : T;
  lastReload : Z;
  effect_deps : option Container;
  effect_cleanup : option (EventRef * EventRef);
  in_flight : list Promise;
  history : list Action
}.

(** [compute()]: a new promise, resolved later by the environment. *)
Definition compute (origin : Promise -> Action) (s : System) : System :=
  {| index_revision := index_revision s; isShown := isShown s; settings := settings s;
     workspace_handlers := workspace_handlers s; node_handlers := node_handlers s;
     next_id := S (next_id s);
     phase := phase s; initialized := initialized s; state := state s;
     lastReload := lastReload s;
     effect_deps := effect_deps s; effect_cleanup := effect_cleanup s;
     in_flight := next_id s :: in_flight s;
     history := origin (next_id s) :: history s |}.

(** The setters of the three cells store the value at once. *)
Definition setInitialized (b : bool) (s : System) : System :=
  {| index_revision := index_revision s; isShown := isShown s; settings := settings s;
     workspace_handlers := workspace_handlers s; node_handlers := node_handlers s;
     next_id := next_id s;
     phase := phase s; initialized := b; state := state s; lastReload := lastReload s;
     effect_deps := effect_deps s; effect_cleanup := effect_cleanup s;
     in_flight := in_flight s; history := history s |}.

Definition setLastReload (revision : Z) (s : System) : System :=
  {| index_revision := index_revision s; isShown := isShown s; settings := settings s;
     workspace_handlers := workspace_handlers s; node_handlers := node_handlers s;
     next_id := next_id s;
     phase := phase s; initialized := initialized s; state := state s;
     lastReload := revision;
     effect_deps := effect_deps s; effect_cleanup := effect_cleanup s;
     in_flight := in_flight s; history := SetLastReload revision :: history s |}.

Definition updateState (v : T) (s : System) : System :=
  {| index_revision := index_revision s; isShown := isShown s; settings := settings s;
     workspace_handlers := workspace_handlers s; node_handlers := node_handlers s;
     next_id := next_id s;
     phase := phase s; initialized := initialized s; state := v;
     lastReload := lastReload s;
     effect_deps := effect_deps s; effect_cleanup := effect_cleanup s;
     in_flight := in_flight s; history := UpdateState v :: history s |}.

(** [refreshOperation] *)
Definition refreshOperation (op : RefreshOperation) (s : System) : System :=
  if negb (closure_lastReload op =? index_revision s)
     && isShown s (closure_container op)
     && refreshEnabled (settings s)
  then compute Recompute (setLastReload (index_revision s) s)
  else s.

Definition without (ref : EventRef) (handlers : list (EventRef * RefreshOperation)) :=
  filter (fun h => negb (Nat.eqb (fst h) ref)) handlers.

(** The function returned by the effect:
    [app.workspace.offref(workEvent); nodeEvent();] *)
Definition cleanup (s : System) : System :=
  match effect_cleanup s with
  | None => s
  | Some (workEvent, nodeEvent) =>
      {| index_revision := index_revision s; isShown := isShown s; settings := settings s;
         workspace_handlers := without workEvent (workspace_handlers s);
         node_handlers := without nodeEvent (node_handlers s);
         next_id := next_id s;
         phase := phase s; initialized := initialized s; state := state s;
         lastReload := lastReload s;
         effect_deps := effect_deps s; effect_cleanup := None;
         in_flight := in_flight s;
         history := Released nodeEvent :: Released workEvent :: history s |}
  end.

(** The body of the effect: both subscriptions, made with the
    [refreshOperation] of this render. *)
Definition effect (container : Container) (s : System) : System :=
  let op := {| closure_lastReload := lastReload s; closure_container := container |} in
  let workEvent := next_id s in
  let nodeEvent := S (next_id s) in
  {| index_revision := index_revision s; isShown := isShown s; settings := settings s;
     workspace_handlers := workspace_handlers s ++ [(workEvent, op)];
     node_handlers := node_handlers s ++ [(nodeEvent, op)];
     next_id := S (S (next_id s));
     phase := phase s; initialized := initialized s; state := state s;
     lastReload := lastReload s;
     effect_deps := Some container; effect_cleanup := Some (workEvent, nodeEvent);
     in_flight := in_flight s;
     history := Subscribed nodeEvent :: Subscribed workEvent :: history s |}.

(** [useEffect(..., [container])]: the effect runs after the first render
    and after a render with another container, its previous cleanup first. *)
Definition useEffect (container : Container) (s : System) : System :=
  match effect_deps s with
  | Some previous =>
      if Nat.eqb previous container then s else effect container (cleanup s)
  | None => effect container s
  end.

(** One call of the hook, during a render of the component. *)
Definition useIndexBackedState (container : Container) (s : System) : System :=
  let s1 := if initialized s then s
            else setInitialized true (compute FirstLoad s) in
  useEffect container s1.

(** The first render creates the cells: [useState(false)],
    [useState(initial)], [useState(index.revision)]. *)
Definition mount (initial : T) (s : System) : System :=
  {| index_revision := index_revision s; isShown := isShown s; settings := settings s;
     workspace_handlers := workspace_handlers s; node_handlers := node_handlers s;
     next_id := next_id s;
     phase := Mounted; initialized := false; state := initial;
     lastReload := index_revision s;
     effect_deps := None; effect_cleanup := None;
     in_flight := in_flight s; history := history s |}.

Definition render (initial : T) (container : Container) (s : System) : System :=
  match phase s with
  | NotMounted => useIndexBackedState container (mount initial s)
  | Mounted => useIndexBackedState container s
  | Unmounted => s
  end.

(** [ReactRenderer.onunload]: [unmountComponentAtNode] runs the cleanup of
    the effect and drops the component. *)
Definition onunload (s : System) : System :=
  match phase s with
  | Mounted =>
      let s' := cleanup s in
      {| index_revision := index_revision s'; isShown := isShown s'; settings := settings s';
         workspace_handlers := workspace_handlers s'; node_handlers := node_handlers s';
         next_id := next_id s';
         phase := Unmounted; initialized := initialized s'; state := state s';
         lastReload := lastReload s';
         effect_deps := effect_deps s'; effect_cleanup := effect_cleanup s';
         in_flight := in_flight s'; history := history s' |}
  | _ => s
  end.

(** [compute().then(v => updateState(v))]: when the promise resolves the
    callback runs, whatever has happened to the component meanwhile. *)
Definition resolve (promise : Promise) (v : T) (s : System) : System :=
  if existsb (Nat.eqb promise) (in_flight s) then
    let s' := updateState v s in
    {| index_revision := index_revision s'; isShown := isShown s'; settings := settings s';
       workspace_handlers := workspace_handlers s'; node_handlers := node_handlers s';
       next_id := next_id s';
       phase := phase s'; initialized := initialized s'; state := state s';
       lastReload := lastReload s';
       effect_deps := effect_deps s'; effect_cleanup := effect_cleanup s';
       in_flight := filter (fun q => negb (Nat.eqb q promise)) (in_flight s');
       history := history s' |}
  else s.

(** An event is delivered to every handler registered when it fires. *)
Definition deliver (handlers : list (EventRef * RefreshOperation)) (s : System) : System :=
  fold_left (fun acc h => refreshOperation (snd h) acc) handlers s.

Definition set_world (revision : Z) (shown : Container -> bool)
  (st : DataviewSettings) (s : System) : System :=
  {| index_revision := revision; isShown := shown; settings := st;
     workspace_handlers := workspace_handlers s; node_handlers := node_handlers s;
     next_id := next_id s;
     phase := phase s; initialized := initialized s; state := state s;
     lastReload := lastReload s;
     effect_deps := effect_deps s; effect_cleanup := effect_cleanup s;
     in_flight := in_flight s; history := history s |}.

Inductive Event : Type :=
| Render (container : Container)
| Onunload
| RefreshViews
| NodeInserted (container : Container)
| IndexChanged (revision : Z)
| ShownChanged (container : Container) (shown : bool)
| RefreshEnabledChanged (enabled : bool)
| Resolved (promise : Promise) (value : T).

Definition step (initial : T) (s : System) (e : Event) : System :=
  match e with
  | Render container => render initial container s
  | Onunload => onunload s
  | RefreshViews => deliver (workspace_handlers s) s
  | NodeInserted container =>
      deliver (filter (fun h => Nat.eqb (closure_container (snd h)) container)
                 (node_handlers s)) s
  | IndexChanged revision => set_world revision (isShown s) (settings s) s
  | ShownChanged container shown =>
      set_world (index_revision s)
        (fun c => if Nat.eqb c container then shown else isShown s c) (settings s) s
  | RefreshEnabledChanged enabled =>
      set_world (index_revision s) (isShown s)
        {| maxRecursiveRenderDepth := maxRecursiveRenderDepth (settings s);
           renderNullAs := renderNullAs (settings s);
           refreshEnabled := enabled |} s
  | Resolved promise v => resolve promise v s
  end.

Definition run (initial : T) (s : System) (events : list Event) : System :=
  fold_left (step initial) events s.

(** Before the view is mounted: nothing registered, nothing in flight. *)
Definition start (initial : T) (revision : Z) (shown : Container -> bool)
  (st : DataviewSettings) : System :=
  {| index_revision := revision; isShown := shown; settings := st;
     workspace_handlers := []; node_handlers := [];
     next_id := O;
     phase := NotMounted; initialized := false; state := initial;
     lastReload := revision;
     effect_deps := None; effect_cleanup := None;
     in_flight := []; history := [] |}.

Definition is_recompute (a : Action) : bool :=
  match a with Recompute _ => true | _ => false end.

Definition is_compute (a : Action) : bool :=
  match a with Recompute _ | FirstLoad _ => true | _ => false end.

Definition recomputes (s : System) : nat :=
  List.length (filter is_recompute (history s)).

Definition computes (s : System) : nat :=
  List.length (filter is_compute (history s)).

Definition subscribed (ref : EventRef) (s : System) : nat :=
  List.length (filter (fun a => match a with Subscribed r => Nat.eqb r ref | _ => false end)
                 (history s)).

Definition released (ref : EventRef) (s : System) : nat :=
  List.length (filter (fun a => match a with Released r => Nat.eqb r ref | _ => false end)
                 (history s)).

Definition is_first_load (a : Action) : bool :=
  match a with FirstLoad _ => true | _ => false end.

Definition first_loads (s : System) : nat :=
  List.length (filter is_first_load (history s)).

(** The value of the most recent [updateState] call, [initial] when there
    was none. *)
Fixpoint last_update (initial : T) (actions : list Action) : T :=
  match actions with
  | [] => initial
  | UpdateState v :: _ => v
  | _ :: earlier => last_update initial earlier
  end.

Definition is_resolution (e : Event) : bool :=
  match e with Resolved _ _ => true | _ => false end.

Definition is_notification (e : Event) : bool :=
  match e with RefreshViews | NodeInserted _ => true | _ => false end.

(** [return state]: what a call of the hook hands to the component.  The
    hook is called when the component is rendered, and a component that was
    unmounted is not rendered. *)
Definition returns (initial : T) (s : System) (e : Event) : option T :=
  match e with
  | Render container =>
      match phase s with
      | Unmounted => None
      | _ => Some (state (render initial container s))
      end
  | _ => None
  end.

(** Everything the hook returns in the course of some events, in order. *)
Fixpoint returned (initial : T) (s : System) (events : list Event) : list T :=
  match events with
  | [] => []
  | e :: rest =>
      match returns initial s e with
      | Some v => v :: returned initial (step initial s e) rest
      | None => returned initial (step initial s e) rest
      end
  end.

(** The revision of the index only increases in the course of the events,
    starting from the given one. *)
Fixpoint advancing (revision : Z) (events : list Event) : bool :=
  match events with
  | [] => true
  | IndexChanged r :: rest => (revision <=? r) && advancing r rest
  | _ :: rest => advancing revision rest
  end.

End IndexBackedState.

Arguments FirstLoad {T}.
Arguments Recompute {T}.
Arguments SetLastReload {T}.
Arguments UpdateState {T}.
Arguments Subscribed {T}.
Arguments Released {T}.
Arguments Render {T}.
Arguments Onunload {T}.
Arguments RefreshViews {T}.
Arguments NodeInserted {T}.
Arguments IndexChanged {T}.
Arguments ShownChanged {T}.
Arguments RefreshEnabledChanged {T}.
Arguments Resolved {T}.
Arguments index_revision {T}.
Arguments isShown {T}.
Arguments settings {T}.
Arguments workspace_handlers {T}.
Arguments node_handlers {T}.
Arguments next_id {T}.
Arguments phase {T}.
Arguments initialized {T}.
Arguments state {T}.
Arguments lastReload {T}.
Arguments effect_deps {T}.
Arguments effect_cleanup {T}.
Arguments in_flight {T}.
Arguments history {T}.
Arguments compute {T}.
Arguments setInitialized {T}.
Arguments setLastReload {T}.
Arguments updateState {T}.
Arguments refreshOperation {T}.
Arguments cleanup {T}.
Arguments effect {T}.
Arguments useEffect {T}.
Arguments useIndexBackedState {T}.
Arguments mount {T}.
Arguments render {T}.
Arguments onunload {T}.
Arguments resolve {T}.
Arguments deliver {T}.
Arguments set_world {T}.
Arguments step {T}.
Arguments run {T}.
Arguments start {T}.
Arguments recomputes {T}.
Arguments computes {T}.
Arguments subscribed {T}.
Arguments released {T}.
Arguments first_loads {T}.
Arguments last_update {T}.
Arguments is_resolution {T}.
Arguments is_notification {T}.
Arguments returns {T}.
Arguments returned {T}.
Arguments advancing {T}.

(** * Properties of [Lit] *)

Section LitProperties.

Context {VM : ValueModel}.
Variable settings : DataviewSettings.

Implicit Types (value : Literal) (sourcePath : string) (inline : bool) (depth : Z).

(** Rewrites a call of [Lit] below the maximum depth into its dispatch. *)
Ltac below_max :=
  rewrite Lit_equation_1;
  destruct (Z_lt_ge_dec _ (maxRecursiveRenderDepth settings)) as [? | ?];
  [simpl | exfalso; lia].

Lemma Lit_at_max value sourcePath inline depth :
  maxRecursiveRenderDepth settings <= depth ->
  Lit settings value sourcePath inline depth = VFragment [VText "..."].
Proof.
  intros H. rewrite Lit_equation_1.
  destruct (Z_lt_ge_dec depth (maxRecursiveRenderDepth settings)); [lia | reflexivity].
Qed.

Lemma nested_lits_children tag cls children :
  nested_lits (VElement tag cls children) = nested_lits_all children.
Proof.
  simpl. induction children as [| c rest IH]; simpl; [reflexivity | now rewrite IH].
Qed.

Lemma direct_lits_children tag cls children :
  direct_lits (VElement tag cls children) = direct_lits_all children.
Proof.
  simpl. induction children as [| c rest IH]; simpl; [reflexivity | now rewrite IH].
Qed.

Lemma own_texts_children tag cls children :
  own_texts (VElement tag cls children) = own_texts_all children.
Proof.
  simpl. induction children as [| c rest IH]; simpl; [reflexivity | now rewrite IH].
Qed.

Lemma mapi_from_map {A B C : Type} (g : A -> B) (f : B -> nat -> C) i l :
  mapi_from i f (map g l) = mapi_from i (fun x => f (g x)) l.
Proof.
  revert i. induction l as [| x l IH]; intros i; simpl; [reflexivity | now rewrite IH].
Qed.

(** *** Lists *)

Definition list_item sourcePath inline depth (subvalue : Literal) (index : nat) : VNode :=
  VFragment
    [VText "$"; VText (if (index =? 0)%nat then "" else ", ");
     VLit subvalue inline (depth + 1) (Lit settings subvalue sourcePath inline (depth + 1))].

Lemma Lit_list_block elements sourcePath depth :
  depth < maxRecursiveRenderDepth settings -> elements <> [] ->
  Lit settings (LArray elements) sourcePath false depth =
  VElement "span" "dataview dataview-result-list-span"
    (mapi (list_item sourcePath false depth) elements).
Proof.
  intros Hd Hne. below_max.
  destruct elements as [| x rest]; [congruence | reflexivity].
Qed.

Lemma Lit_empty_list_block sourcePath depth :
  depth < maxRecursiveRenderDepth settings ->
  Lit settings (LArray []) sourcePath false depth = VFragment [VText "<Empty List>"].
Proof.
  intros Hd. below_max. reflexivity.
Qed.

Lemma list_items_lits sourcePath inline depth i elements :
  direct_lits_all (mapi_from i (list_item sourcePath inline depth) elements) =
  map (fun v => VLit v inline (depth + 1) (Lit settings v sourcePath inline (depth + 1)))
    elements.
Proof.
  revert i. induction elements as [| x rest IH]; intros i; simpl; [reflexivity |].
  now rewrite IH.
Qed.

Lemma list_items_texts sourcePath inline depth i elements :
  count_occ string_dec
    (own_texts_all (mapi_from i (list_item sourcePath inline depth) elements)) ", " =
  (List.length elements - if (i =? 0)%nat then 1 else 0)%nat.
Proof.
  revert i. induction elements as [| x rest IH]; intros i; [reflexivity |].
  cbn [mapi_from own_texts_all]. rewrite count_occ_app, IH.
  destruct i; simpl; lia.
Qed.

(** A non-empty list rendered in a block context: one nested [Lit] per
    element, in order, and one separator fewer than elements. *)
Lemma Lit_list_block_children elements sourcePath depth :
  depth < maxRecursiveRenderDepth settings -> elements <> [] ->
  let out := Lit settings (LArray elements) sourcePath false depth in
  direct_lits out =
    map (fun v => VLit v false (depth + 1) (Lit settings v sourcePath false (depth + 1)))
      elements /\
  count_occ string_dec (own_texts out) ", " = (List.length elements - 1)%nat.
Proof.
  intros Hd Hne out. unfold out. rewrite (Lit_list_block _ _ _ Hd Hne).
  rewrite direct_lits_children, own_texts_children. unfold mapi.
  split; [apply list_items_lits | apply list_items_texts].
Qed.

(** *** Records *)

Definition plain (constructor_name : option string) : Prop :=
  is_class_instance constructor_name = false.

Definition record_item sourcePath inline depth (index : nat) : VNode :=
  VFragment
    [VText "$"; VText (if (index =? 0)%nat then "" else ", "); VText "$";
     VText ":"; VText " ";
     VLit LUndefined inline (depth + 1)
       (Lit settings LUndefined sourcePath inline (depth + 1))].

(** Every entry of a plain record renders the same: neither its key nor its
    value reaches the output. *)
Lemma Lit_record_block constructor_name entries sourcePath depth :
  depth < maxRecursiveRenderDepth settings -> plain constructor_name -> entries <> [] ->
  Lit settings (LObject constructor_name entries) sourcePath false depth =
  VElement "span" "dataview dataview-result-object-span"
    (mapi (fun _ index => record_item sourcePath false depth index) entries).
Proof.
  intros Hd Hplain Hne. below_max. rewrite Hplain.
  destruct entries as [| kv rest]; [congruence |].
  cbn [Object_keys map List.length Nat.eqb].
  f_equal. unfold mapi, Object_entries. rewrite mapi_from_map. reflexivity.
Qed.

Lemma Lit_record_inline constructor_name entries sourcePath depth :
  depth < maxRecursiveRenderDepth settings -> plain constructor_name ->
  Lit settings (LObject constructor_name entries) sourcePath true depth =
  VElement "ul" "dataview dataview-ul dataview-result-object-ul"
    (map (fun _ =>
            VElement "li" "dataview dataview-li dataview-result-object-li"
              [VText "$"; VText ":"; VText " ";
               VLit LUndefined true (depth + 1)
                 (Lit settings LUndefined sourcePath true (depth + 1))])
       entries).
Proof.
  intros Hd Hplain. below_max. rewrite Hplain.
  f_equal. unfold Object_entries. rewrite map_map. reflexivity.
Qed.

Lemma Lit_empty_record_block constructor_name sourcePath depth :
  depth < maxRecursiveRenderDepth settings -> plain constructor_name ->
  Lit settings (LObject constructor_name []) sourcePath false depth =
  VFragment [VText "<Empty Object>"].
Proof.
  intros Hd Hplain. below_max. now rewrite Hplain.
Qed.

(** An object made by a class renders as the name of the class between
    ["<$"] and [">"], and none of its entries is rendered. *)
Lemma Lit_class_instance name entries sourcePath inline depth :
  depth < maxRecursiveRenderDepth settings ->
  name <> "" -> name <> "Object" ->
  let out := Lit settings (LObject (Some name) entries) sourcePath inline depth in
  out = VFragment [VText "<$"; VText name; VText ">"] /\ nested_lits out = O.
Proof.
  intros Hd H1 H2 out. unfold out. below_max.
  apply String.eqb_neq in H1, H2. rewrite H1, H2. simpl. now split.
Qed.

End LitProperties.

(** * Properties of the unwrapping loop *)

Lemma first_match_none selector nodes :
  first_match selector nodes = None -> count_all selector nodes = O.
Proof.
  assert (Hnode : forall n, matches_in selector n = None -> count_in selector n = O).
  { induction n as [data | tag children IH] using Node_forall_ind; intros Hn.
    - reflexivity.
    - rewrite matches_in_Element in Hn. rewrite count_in_Element.
      destruct (String.eqb tag selector); [discriminate |].
      induction IH as [| c rest Hc _ IHrest]; simpl in *; [reflexivity |].
      destruct (matches_in selector c); [discriminate |].
      destruct (first_match selector rest); [discriminate |].
      rewrite Hc by reflexivity. now apply IHrest. }
  induction nodes as [| c rest IH]; simpl; intros H; [reflexivity |].
  destruct (matches_in selector c) eqn:Hc; [discriminate |].
  destruct (first_match selector rest); [discriminate |].
  rewrite (Hnode _ Hc). now apply IH.
Qed.

Lemma splice_all_none selector nodes :
  count_all selector nodes = O -> splice_all selector nodes = nodes.
Proof.
  assert (Hnode : forall n, count_in selector n = O -> splice selector n = [n]).
  { induction n as [data | tag children IH] using Node_forall_ind; intros Hn.
    - reflexivity.
    - rewrite count_in_Element in Hn. rewrite splice_Element.
      destruct (String.eqb tag selector); [discriminate |].
      do 2 f_equal. simpl in Hn.
      induction IH as [| c rest Hc _ IHrest]; [reflexivity |].
      rewrite count_all_cons in Hn. rewrite splice_all_cons.
      rewrite Hc by lia. rewrite IHrest by lia. reflexivity. }
  induction nodes as [| c rest IH]; intros H; [reflexivity |].
  rewrite count_all_cons in H. rewrite splice_all_cons.
  rewrite Hnode by lia. rewrite IH by lia. reflexivity.
Qed.

Definition spliced (selector : string) (container : Node) : Node :=
  match container with
  | TextNode _ => container
  | Element tag children => Element tag (splice_all selector children)
  end.

Lemma querySelector_preserves selector container p :
  querySelector selector container = Some p ->
  let container' := replaceWith container p (childNodes_at container p) in
  textContent container' = textContent container /\
  spliced selector container' = spliced selector container.
Proof.
  destruct container as [data | tag children]; simpl querySelector; [discriminate |].
  intros Hp.
  destruct (first_match_found _ _ _ Hp) as (i & q & cs & -> & Hat & _ & Htext & Hsplice).
  unfold replaceWith, childNodes_at. rewrite Hat. cbv zeta.
  rewrite !textContent_Element. unfold spliced. now rewrite Htext, Hsplice.
Qed.

Lemma unwrap_paragraphs_result container :
  querySelector "p" (unwrap_paragraphs container) = None /\
  textContent (unwrap_paragraphs container) = textContent container /\
  unwrap_paragraphs container = spliced "p" container.
Proof.
  funelim (unwrap_paragraphs container).
  - destruct (querySelector_preserves _ _ _ found) as [Htext Hsplice].
    match goal with IH : _ /\ _ /\ _ |- _ => destruct IH as (H1 & H2 & H3) end.
    repeat split; congruence.
  - repeat split; try assumption.
    destruct container as [data | tag children]; [reflexivity |].
    simpl in nothing. unfold spliced.
    now rewrite splice_all_none by now apply first_match_none.
Qed.

(** * Properties of the hook *)

Section HookProperties.

Context {T : Type}.
Variable initial : T.

Implicit Types (s : System T) (op : RefreshOperation) (e : Event T).

Definition active (ref : EventRef) (s : System T) : bool :=
  existsb (fun h => Nat.eqb (fst h) ref) (workspace_handlers s)
  || existsb (fun h => Nat.eqb (fst h) ref) (node_handlers s).

(** Two systems with the same subscriptions: same life-cycle phase, same
    effect, same registries, same records of subscribing and releasing. *)
Record same_subscriptions (s s' : System T) : Prop := {
  same_phase : phase s' = phase s;
  same_deps : effect_deps s' = effect_deps s;
  same_cleanup : effect_cleanup s' = effect_cleanup s;
  same_workspace : workspace_handlers s' = workspace_handlers s;
  same_node : node_handlers s' = node_handlers s;
  same_subscribed : forall ref, subscribed ref s' = subscribed ref s;
  same_released : forall ref, released ref s' = released ref s;
  later_id : (next_id s <= next_id s')%nat
}.

Lemma same_subscriptions_refl s : same_subscriptions s s.
Proof. constructor; auto. Qed.

Lemma same_subscriptions_trans s1 s2 s3 :
  same_subscriptions s1 s2 -> same_subscriptions s2 s3 -> same_subscriptions s1 s3.
Proof.
  intros [] []. constructor; try congruence; lia.
Qed.

Ltac frame := constructor; simpl; auto.

Lemma compute_FirstLoad_frame s : same_subscriptions s (compute FirstLoad s).
Proof. frame. Qed.

Lemma compute_Recompute_frame s : same_subscriptions s (compute Recompute s).
Proof. frame. Qed.

Lemma setInitialized_frame b s : same_subscriptions s (setInitialized b s).
Proof. frame. Qed.

Lemma setLastReload_frame r s : same_subscriptions s (setLastReload r s).
Proof. frame. Qed.

Lemma updateState_frame v s : same_subscriptions s (updateState v s).
Proof. frame. Qed.

Lemma set_world_frame r shown st s : same_subscriptions s (set_world r shown st s).
Proof. frame. Qed.

Lemma resolve_frame k v s : same_subscriptions s (resolve k v s).
Proof.
  unfold resolve. destruct (existsb _ _); [| apply same_subscriptions_refl]. frame.
Qed.

Lemma refreshOperation_frame op s : same_subscriptions s (refreshOperation op s).
Proof.
  unfold refreshOperation. destruct (_ && _ && _); [| apply same_subscriptions_refl].
  eapply same_subscriptions_trans; [apply setLastReload_frame | apply compute_Recompute_frame].
Qed.

Lemma deliver_frame handlers s : same_subscriptions s (deliver handlers s).
Proof.
  unfold deliver. revert s.
  induction handlers as [| h rest IH]; intros s; simpl; [apply same_subscriptions_refl |].
  eapply same_subscriptions_trans; [apply refreshOperation_frame | apply IH].
Qed.

(** The invariant of every system reached from [start]. *)
Record consistent (s : System T) : Prop := {
  consistent_phase :
    match phase s with
    | Mounted =>
        exists workEvent nodeEvent op,
          effect_cleanup s = Some (workEvent, nodeEvent) /\
          workspace_handlers s = [(workEvent, op)] /\
          node_handlers s = [(nodeEvent, op)] /\
          effect_deps s = Some (closure_container op) /\
          workEvent <> nodeEvent /\
          (workEvent < next_id s)%nat /\ (nodeEvent < next_id s)%nat
    | _ =>
        effect_cleanup s = None /\ workspace_handlers s = [] /\ node_handlers s = []
    end;
  consistent_fresh : forall ref, (next_id s <= ref)%nat -> subscribed ref s = O;
  consistent_once : forall ref, (subscribed ref s <= 1)%nat;
  consistent_balance :
    forall ref, subscribed ref s = (released ref s + if active ref s then 1 else 0)%nat
}.

Lemma consistent_frame s s' :
  same_subscriptions s s' -> consistent s -> consistent s'.
Proof.
  intros [Hp Hd Hc Hw Hn Hs Hr Hid] [Hphase Hfresh Honce Hbalance]. constructor.
  - rewrite Hp. destruct (phase s).
    + now rewrite Hc, Hw, Hn.
    + destruct Hphase as (w & n & op & H1 & H2 & H3 & H4 & H5 & H6 & H7).
      exists w, n, op. rewrite Hc, Hw, Hn, Hd.
      repeat split; auto; lia.
    + now rewrite Hc, Hw, Hn.
  - intros ref Href. rewrite Hs. apply Hfresh. lia.
  - intros ref. rewrite Hs. apply Honce.
  - intros ref. unfold active. rewrite Hs, Hr, Hw, Hn. apply Hbalance.
Qed.

(** Between the cleanup of an effect and the next effect, and before the
    first one, nothing is registered. *)
Record quiescent (s : System T) : Prop := {
  quiescent_cleanup : effect_cleanup s = None;
  quiescent_workspace : workspace_handlers s = [];
  quiescent_node : node_handlers s = [];
  quiescent_fresh : forall ref, (next_id s <= ref)%nat -> subscribed ref s = O;
  quiescent_once : forall ref, (subscribed ref s <= 1)%nat;
  quiescent_balance : forall ref, subscribed ref s = released ref s
}.

Lemma quiescent_frame s s' :
  same_subscriptions s s' -> quiescent s -> quiescent s'.
Proof.
  intros [Hp Hd Hc Hw Hn Hs Hr Hid] [Q1 Q2 Q3 Q4 Q6 Q5]. constructor.
  - congruence.
  - congruence.
  - congruence.
  - intros ref Href. rewrite Hs. apply Q4. lia.
  - intros ref. rewrite Hs. apply Q6.
  - intros ref. now rewrite Hs, Hr.
Qed.

Lemma consistent_quiescent s :
  consistent s -> phase s <> Mounted -> quiescent s.
Proof.
  intros [Hphase Hfresh Honce Hbalance] Hne.
  assert (H : effect_cleanup s = None /\ workspace_handlers s = [] /\ node_handlers s = []).
  { destruct (phase s); [exact Hphase | congruence | exact Hphase]. }
  destruct H as (H1 & H2 & H3). constructor; auto.
  intros ref. rewrite Hbalance. unfold active. rewrite H2, H3. simpl. lia.
Qed.

Lemma mount_quiescent s :
  consistent s -> phase s = NotMounted -> quiescent (mount initial s).
Proof.
  intros Hs Hphase.
  destruct (consistent_quiescent s Hs) as [Q1 Q2 Q3 Q4 Q6 Q5]; [congruence |].
  constructor; simpl; auto.
Qed.

Lemma released_cleanup (s : System T) workEvent nodeEvent ref :
  effect_cleanup s = Some (workEvent, nodeEvent) ->
  released ref (cleanup s) =
  ((if Nat.eqb nodeEvent ref then 1 else 0) + (if Nat.eqb workEvent ref then 1 else 0)
   + released ref s)%nat.
Proof.
  intros H. unfold cleanup, released. rewrite H. simpl.
  destruct (Nat.eqb nodeEvent ref), (Nat.eqb workEvent ref); reflexivity.
Qed.

Lemma subscribed_cleanup (s : System T) ref : subscribed ref (cleanup s) = subscribed ref s.
Proof.
  unfold cleanup, subscribed. destruct (effect_cleanup s) as [[w n] |]; reflexivity.
Qed.

Lemma subscribed_effect container (s : System T) ref :
  subscribed ref (effect container s) =
  ((if Nat.eqb (S (next_id s)) ref then 1 else 0) + (if Nat.eqb (next_id s) ref then 1 else 0)
   + subscribed ref s)%nat.
Proof.
  unfold effect, subscribed. cbn [history filter].
  destruct (Nat.eqb (S (next_id s)) ref), (Nat.eqb (next_id s) ref); reflexivity.
Qed.

Lemma released_effect container (s : System T) ref :
  released ref (effect container s) = released ref s.
Proof. reflexivity. Qed.

Lemma cleanup_quiescent s :
  consistent s -> phase s = Mounted -> quiescent (cleanup s).
Proof.
  intros [Hphase Hfresh Honce Hbalance] Hm. rewrite Hm in Hphase.
  destruct Hphase as (w & n & op & H1 & H2 & H3 & H4 & H5 & H6 & H7).
  constructor.
  - unfold cleanup. now rewrite H1.
  - unfold cleanup. rewrite H1, H2. simpl. now rewrite Nat.eqb_refl.
  - unfold cleanup. rewrite H1, H3. simpl. now rewrite Nat.eqb_refl.
  - intros ref Href. rewrite subscribed_cleanup. apply Hfresh.
    unfold cleanup in Href. rewrite H1 in Href. exact Href.
  - intros ref. rewrite subscribed_cleanup. apply Honce.
  - intros ref. rewrite subscribed_cleanup, (released_cleanup s w n ref H1), Hbalance.
    unfold active. rewrite H2, H3. simpl.
    destruct (Nat.eqb_spec w ref), (Nat.eqb_spec n ref); simpl; lia.
Qed.

Lemma effect_consistent container s :
  quiescent s -> phase s = Mounted -> consistent (effect container s).
Proof.
  intros [Q1 Q2 Q3 Q4 Q6 Q5] Hm. constructor.
  - simpl. rewrite Hm, Q2, Q3. simpl.
    eexists _, _, _. repeat split; simpl; lia.
  - intros ref Href. simpl in Href. rewrite subscribed_effect, Q4 by lia.
    destruct (Nat.eqb_spec (next_id s) ref), (Nat.eqb_spec (S (next_id s)) ref); lia.
  - intros ref. rewrite subscribed_effect.
    destruct (Nat.eqb_spec (next_id s) ref), (Nat.eqb_spec (S (next_id s)) ref);
      try (rewrite Q4 by lia); try lia.
    specialize (Q6 ref). lia.
  - intros ref. rewrite subscribed_effect, released_effect, <- Q5.
    unfold active, effect. cbn [workspace_handlers node_handlers].
    rewrite Q2, Q3. cbn [app existsb fst]. rewrite !orb_false_r.
    destruct (Nat.eqb_spec (next_id s) ref), (Nat.eqb_spec (S (next_id s)) ref);
      cbn [orb]; lia.
Qed.

Lemma useEffect_consistent container s :
  phase s = Mounted ->
  consistent s \/ (quiescent s /\ effect_deps s = None) ->
  consistent (useEffect container s).
Proof.
  intros Hm [Hs | [Hq Hd]]; unfold useEffect.
  - destruct (effect_deps s) as [previous |] eqn:Hdeps.
    + destruct (Nat.eqb previous container); [exact Hs |].
      apply effect_consistent.
      * now apply cleanup_quiescent.
      * unfold cleanup. destruct (effect_cleanup s) as [[w n] |]; simpl; exact Hm.
    + destruct Hs as [Hphase _ _ _]. rewrite Hm in Hphase.
      destruct Hphase as (w & n & op & _ & _ & _ & H4 & _). congruence.
  - rewrite Hd. now apply effect_consistent.
Qed.

Lemma render_consistent container s :
  consistent s -> consistent (render initial container s).
Proof.
  intros Hs. unfold render. destruct (phase s) eqn:Hphase; [| | exact Hs].
  - unfold useIndexBackedState. simpl.
    apply useEffect_consistent; [reflexivity |]. right. split; [| reflexivity].
    eapply quiescent_frame; [| apply (mount_quiescent s Hs Hphase)].
    eapply same_subscriptions_trans;
      [apply compute_FirstLoad_frame | apply setInitialized_frame].
  - unfold useIndexBackedState.
    destruct (initialized s).
    + apply useEffect_consistent; [exact Hphase | now left].
    + apply useEffect_consistent; [exact Hphase | left].
      eapply consistent_frame; [| exact Hs].
      eapply same_subscriptions_trans;
        [apply compute_FirstLoad_frame | apply setInitialized_frame].
Qed.

Lemma onunload_consistent s : consistent s -> consistent (onunload s).
Proof.
  intros Hs. unfold onunload. destruct (phase s) eqn:Hphase; try exact Hs.
  destruct (cleanup_quiescent s Hs Hphase) as [Q1 Q2 Q3 Q4 Q6 Q5].
  constructor; simpl.
  - auto.
  - exact Q4.
  - exact Q6.
  - intros ref. unfold active. simpl. rewrite Q2, Q3. simpl.
    change (subscribed ref (cleanup s) = (released ref (cleanup s) + 0)%nat).
    rewrite Q5. lia.
Qed.

Lemma step_consistent s e : consistent s -> consistent (step initial s e).
Proof.
  intros Hs. destruct e; simpl.
  - now apply render_consistent.
  - now apply onunload_consistent.
  - eapply consistent_frame; [apply deliver_frame | exact Hs].
  - eapply consistent_frame; [apply deliver_frame | exact Hs].
  - eapply consistent_frame; [apply set_world_frame | exact Hs].
  - eapply consistent_frame; [apply set_world_frame | exact Hs].
  - eapply consistent_frame; [apply set_world_frame | exact Hs].
  - eapply consistent_frame; [apply resolve_frame | exact Hs].
Qed.

Lemma start_consistent revision shown st : consistent (start initial revision shown st).
Proof.
  constructor; simpl; auto.
Qed.

Lemma run_consistent s events : consistent s -> consistent (run initial s events).
Proof.
  unfold run. revert s.
  induction events as [| e rest IH]; intros s Hs; simpl; [exact Hs |].
  apply IH. now apply step_consistent.
Qed.

(** *** What the hook leaves alone: the index, the container, the settings *)

Record same_world (s s' : System T) : Prop := {
  same_revision : index_revision s' = index_revision s;
  same_shown : isShown s' = isShown s;
  same_settings : settings s' = settings s
}.

Lemma same_world_refl s : same_world s s.
Proof. constructor; reflexivity. Qed.

Lemma same_world_trans s1 s2 s3 :
  same_world s1 s2 -> same_world s2 s3 -> same_world s1 s3.
Proof. intros [] []. constructor; congruence. Qed.

Lemma refreshOperation_world op s : same_world s (refreshOperation op s).
Proof.
  unfold refreshOperation. destruct (_ && _ && _); constructor; reflexivity.
Qed.

Lemma deliver_world handlers s : same_world s (deliver handlers s).
Proof.
  unfold deliver. revert s.
  induction handlers as [| h rest IH]; intros s; simpl; [apply same_world_refl |].
  eapply same_world_trans; [apply refreshOperation_world | apply IH].
Qed.

Lemma cleanup_world s : same_world s (cleanup s).
Proof.
  unfold cleanup. destruct (effect_cleanup s) as [[w n] |]; constructor; reflexivity.
Qed.

Lemma useIndexBackedState_world container s :
  same_world s (useIndexBackedState container s).
Proof.
  unfold useIndexBackedState, useEffect.
  destruct (initialized s); simpl.
  - destruct (effect_deps s) as [previous |]; [destruct (Nat.eqb previous container) |];
      try (constructor; reflexivity).
    unfold cleanup. destruct (effect_cleanup s) as [[w n] |]; constructor; reflexivity.
  - destruct (effect_deps s) as [previous |]; [destruct (Nat.eqb previous container) |];
      try (constructor; reflexivity).
    unfold cleanup. simpl.
    destruct (effect_cleanup s) as [[w n] |]; constructor; reflexivity.
Qed.

Lemma render_world container s : same_world s (render initial container s).
Proof.
  unfold render. destruct (phase s).
  - eapply same_world_trans; [| apply useIndexBackedState_world]. constructor; reflexivity.
  - apply useIndexBackedState_world.
  - apply same_world_refl.
Qed.

Lemma onunload_world s : same_world s (onunload s).
Proof.
  unfold onunload. destruct (phase s); try apply same_world_refl.
  unfold cleanup. destruct (effect_cleanup s) as [[w n] |]; constructor; reflexivity.
Qed.

Lemma resolve_world k v s : same_world s (resolve k v s).
Proof.
  unfold resolve. destruct (existsb _ _); constructor; reflexivity.
Qed.

(** *** Counting the calls of [compute()] *)

Definition gate (op : RefreshOperation) (s : System T) : bool :=
  negb (closure_lastReload op =? index_revision s)
  && isShown s (closure_container op)
  && refreshEnabled (settings s).

Lemma refreshOperation_gate op s :
  refreshOperation op s =
  if gate op s then compute Recompute (setLastReload (index_revision s) s) else s.
Proof. reflexivity. Qed.

Lemma refreshOperation_recomputes op s :
  recomputes (refreshOperation op s) =
  (recomputes s + if gate op s then 1 else 0)%nat.
Proof.
  rewrite refreshOperation_gate. destruct (gate op s); unfold recomputes; simpl; lia.
Qed.

Lemma deliver_closed_gate handlers s :
  Forall (fun h => gate (snd h) s = false) handlers -> deliver handlers s = s.
Proof.
  unfold deliver. induction 1 as [| h rest Hh _ IH]; simpl; [reflexivity |].
  rewrite refreshOperation_gate, Hh. exact IH.
Qed.

Lemma consistent_handlers s :
  consistent s ->
  (workspace_handlers s = [] /\ node_handlers s = []) \/
  (exists workEvent nodeEvent op,
     workspace_handlers s = [(workEvent, op)] /\ node_handlers s = [(nodeEvent, op)]).
Proof.
  intros [Hphase _ _ _]. destruct (phase s).
  - left. tauto.
  - right. destruct Hphase as (w & n & op & _ & H2 & H3 & _). now exists w, n, op.
  - left. tauto.
Qed.

Lemma notification_at_most_one s e :
  consistent s -> e = RefreshViews \/ (exists c, e = NodeInserted c) ->
  (recomputes (step initial s e) <= recomputes s + 1)%nat.
Proof.
  intros Hs He.
  assert (Hone : forall hs, hs = [] \/ (exists h, hs = [h]) ->
            (recomputes (deliver hs s) <= recomputes s + 1)%nat).
  { intros hs [-> | [h ->]]; simpl; [lia |].
    rewrite refreshOperation_recomputes. destruct (gate (snd h) s); lia. }
  destruct (consistent_handlers s Hs) as [[Hw Hn] | (w & n & op & Hw & Hn)];
    destruct He as [-> | [c ->]]; simpl; rewrite ?Hw, ?Hn; apply Hone; simpl;
    try destruct (Nat.eqb _ _); eauto.
Qed.

(** *** While the index does not move *)

(** Every [lastReload] in the system, the cell and the copies held by the
    registered closures, is the revision of the index. *)
Record settled (s : System T) : Prop := {
  settled_cell : lastReload s = index_revision s;
  settled_workspace :
    Forall (fun h => closure_lastReload (snd h) = index_revision s) (workspace_handlers s);
  settled_node :
    Forall (fun h => closure_lastReload (snd h) = index_revision s) (node_handlers s)
}.

Definition keeps_revision (revision : Z) (e : Event T) : bool :=
  match e with
  | IndexChanged r => r =? revision
  | _ => true
  end.

Lemma settled_gate op s :
  closure_lastReload op = index_revision s -> gate op s = false.
Proof.
  intros H. unfold gate. now rewrite H, Z.eqb_refl.
Qed.

Lemma settled_deliver handlers s :
  Forall (fun h => closure_lastReload (snd h) = index_revision s) handlers ->
  deliver handlers s = s.
Proof.
  intros H. apply deliver_closed_gate.
  eapply Forall_impl; [| exact H]. intros h Hh. now apply settled_gate.
Qed.

Lemma Forall_without (P : EventRef * RefreshOperation -> Prop) ref handlers :
  Forall P handlers -> Forall P (without ref handlers).
Proof.
  intros H. unfold without. apply Forall_forall. intros h Hin.
  apply filter_In in Hin. destruct Hin as [Hin _].
  rewrite Forall_forall in H. now apply H.
Qed.

Lemma cleanup_settled s : settled s -> settled (cleanup s).
Proof.
  intros [H1 H2 H3]. unfold cleanup.
  destruct (effect_cleanup s) as [[w n] |]; [| now constructor].
  constructor; simpl; auto using Forall_without.
Qed.

Lemma effect_settled container s : settled s -> settled (effect container s).
Proof.
  intros [H1 H2 H3].
  constructor; simpl; auto; apply Forall_app; split; auto.
Qed.

Lemma useIndexBackedState_settled container s :
  settled s -> settled (useIndexBackedState container s).
Proof.
  intros Hs.
  assert (H1 : settled (if initialized s then s
                        else setInitialized true (compute FirstLoad s))).
  { destruct (initialized s); [exact Hs |]. destruct Hs. now constructor. }
  unfold useIndexBackedState, useEffect.
  destruct (effect_deps _) as [previous |].
  - destruct (Nat.eqb previous container); [exact H1 |].
    now apply effect_settled, cleanup_settled.
  - now apply effect_settled.
Qed.

Lemma render_settled container s : settled s -> settled (render initial container s).
Proof.
  intros Hs. unfold render. destruct (phase s).
  - apply useIndexBackedState_settled. destruct Hs. now constructor.
  - now apply useIndexBackedState_settled.
  - exact Hs.
Qed.

Lemma step_settled s e :
  settled s -> keeps_revision (index_revision s) e = true ->
  settled (step initial s e) /\ index_revision (step initial s e) = index_revision s.
Proof.
  intros Hs He. destruct e; simpl in *.
  - split; [now apply render_settled | apply render_world].
  - split; [| apply onunload_world].
    unfold onunload. destruct (phase s); try exact Hs.
    destruct (cleanup_settled s Hs). now constructor.
  - rewrite settled_deliver; [now split | apply Hs].
  - rewrite settled_deliver; [now split |].
    destruct Hs as [_ _ H3]. apply Forall_forall. intros h Hin.
    apply filter_In in Hin. rewrite Forall_forall in H3. now apply H3.
  - apply Z.eqb_eq in He. subst revision.
    split; [| reflexivity]. destruct Hs. now constructor.
  - split; [| reflexivity]. destruct Hs. now constructor.
  - split; [| reflexivity]. destruct Hs. now constructor.
  - split; [| apply resolve_world].
    unfold resolve. destruct (existsb _ _); [| exact Hs]. destruct Hs. now constructor.
Qed.

Lemma run_settled s events :
  settled s -> forallb (keeps_revision (index_revision s)) events = true ->
  settled (run initial s events).
Proof.
  unfold run. revert s.
  induction events as [| e rest IH]; intros s Hs Hev; simpl in *; [exact Hs |].
  apply andb_true_iff in Hev. destruct Hev as [He Hrest].
  destruct (step_settled s e Hs He) as [Hs' Hrev].
  apply IH; [exact Hs' | now rewrite Hrev].
Qed.

Lemma start_settled revision shown st : settled (start initial revision shown st).
Proof. constructor; simpl; auto. Qed.

(** *** After the teardown *)

Record torn_down (s : System T) : Prop := {
  torn_down_phase : phase s = Unmounted;
  torn_down_workspace : workspace_handlers s = [];
  torn_down_node : node_handlers s = []
}.

Lemma step_torn_down s e :
  torn_down s ->
  torn_down (step initial s e) /\ computes (step initial s e) = computes s.
Proof.
  intros [H1 H2 H3]. destruct e; simpl.
  - unfold render. rewrite H1. now split.
  - unfold onunload. rewrite H1. now split.
  - rewrite H2. now split.
  - rewrite H3. now split.
  - now split.
  - now split.
  - now split.
  - unfold resolve. destruct (existsb _ _); now split.
Qed.

Lemma run_torn_down s events :
  torn_down s ->
  torn_down (run initial s events) /\ computes (run initial s events) = computes s.
Proof.
  unfold run. revert s.
  induction events as [| e rest IH]; intros s Hs; simpl; [now split |].
  destruct (step_torn_down s e Hs) as [Hs' Hc].
  destruct (IH _ Hs') as [Hs'' Hc']. split; [exact Hs'' | congruence].
Qed.

Lemma consistent_torn_down s : consistent s -> phase s = Unmounted -> torn_down s.
Proof.
  intros [Hphase _ _ _] Hu. rewrite Hu in Hphase. now constructor.
Qed.

(** *** The closure keeps the [lastReload] of the render that made it *)

Lemma repeated_notifications s workEvent op k :
  workspace_handlers s = [(workEvent, op)] ->
  gate op s = true ->
  recomputes (run initial s (repeat RefreshViews k)) = (recomputes s + k)%nat.
Proof.
  revert s. induction k as [| k IH]; intros s Hw Hg; simpl; [lia |].
  unfold run in *. simpl. rewrite Hw. simpl.
  rewrite IH.
  - rewrite refreshOperation_recomputes, Hg. lia.
  - rewrite refreshOperation_gate, Hg. exact Hw.
  - rewrite refreshOperation_gate, Hg. exact Hg.
Qed.

End HookProperties.

(** * The shape of what [Lit] renders *)

Section LitStructure.

Context {VM : ValueModel}.
Variable settings : DataviewSettings.
Variable sourcePath : string.

Implicit Types (value : Literal) (inline : bool) (depth : Z).

(** Induction along the calls of [Lit]: a call below the maximum depth may
    use the property of every call one level deeper. *)
Lemma Lit_induction (P : Literal -> bool -> Z -> VNode -> Prop) :
  (forall value inline depth,
     depth >= maxRecursiveRenderDepth settings ->
     P value inline depth (VFragment [VText "..."])) ->
  (forall value inline depth,
     depth < maxRecursiveRenderDepth settings ->
     (forall subvalue,
        P subvalue inline (depth + 1) (Lit settings subvalue sourcePath inline (depth + 1))) ->
     P value inline depth (Lit settings value sourcePath inline depth)) ->
  forall value inline depth,
    P value inline depth (Lit settings value sourcePath inline depth).
Proof.
  intros Hmax Hstep value inline depth.
  remember (Z.to_nat (maxRecursiveRenderDepth settings - depth)) as n eqn:Hn.
  revert value depth Hn.
  induction n as [n IH] using lt_wf_ind. intros value depth Hn.
  destruct (Z_lt_ge_dec depth (maxRecursiveRenderDepth settings)) as [Hlt | Hge].
  - apply Hstep; [exact Hlt |]. intros subvalue.
    apply (IH (Z.to_nat (maxRecursiveRenderDepth settings - (depth + 1)))); [lia | reflexivity].
  - rewrite Lit_at_max by lia. now apply Hmax.
Qed.

Lemma VNode_forall_ind (P : VNode -> Prop) :
  (forall s, P (VText s)) ->
  (forall children, Forall P children -> P (VFragment children)) ->
  (forall tag cls children, Forall P children -> P (VElement tag cls children)) ->
  (forall content path inline, P (VMarkdown content path inline)) ->
  (forall element, P (VEmbedHtml element)) ->
  (forall value inline depth rendered, P rendered -> P (VLit value inline depth rendered)) ->
  forall n, P n.
Proof.
  intros Htext Hfrag Helem Hmd Hembed Hlit.
  fix self 1.
  intros [s | children | tag cls children | content path inline | element
          | value inline depth rendered].
  - apply Htext.
  - apply Hfrag. induction children as [| c rest IH]; constructor; [apply self | exact IH].
  - apply Helem. induction children as [| c rest IH]; constructor; [apply self | exact IH].
  - apply Hmd.
  - apply Hembed.
  - apply Hlit, self.
Qed.

Lemma Forall_map_all {A B : Type} (P : B -> Prop) (f : A -> B) (l : list A) :
  (forall x, P (f x)) -> Forall P (map f l).
Proof.
  intros H. induction l as [| x l IH]; simpl; constructor; auto.
Qed.

Lemma Forall_mapi_from_all {A B : Type} (P : B -> Prop) (f : A -> nat -> B) i (l : list A) :
  (forall x k, P (f x k)) -> Forall P (mapi_from i f l).
Proof.
  intros H. revert i. induction l as [| x l IH]; intros i; simpl; constructor; auto.
Qed.

(** *** Nesting *)

Lemma lit_height_children tag cls children :
  lit_height (VElement tag cls children) = lit_height_all children.
Proof.
  simpl. induction children as [| c rest IH]; simpl; [reflexivity | now rewrite IH].
Qed.

Lemma lit_height_fragment children :
  lit_height (VFragment children) = lit_height_all children.
Proof.
  simpl. induction children as [| c rest IH]; simpl; [reflexivity | now rewrite IH].
Qed.

Lemma lit_height_all_bound bound children :
  Forall (fun c => (lit_height c <= bound)%nat) children ->
  (lit_height_all children <= bound)%nat.
Proof.
  induction 1 as [| c rest Hc _ IH]; simpl; lia.
Qed.

(** The three shapes of a call below the maximum depth that renders an
    object, and the two of one that renders [undefined]. *)
Lemma Lit_undefined_leaf inline depth :
  Lit settings LUndefined sourcePath inline depth = VFragment [VText "..."] \/
  Lit settings LUndefined sourcePath inline depth
    = VMarkdown (renderNullAs settings) sourcePath false \/
  Lit settings LUndefined sourcePath inline depth
    = VFragment [VText "<Unrecognized: $"; VText ">"].
Proof.
  rewrite Lit_equation_1.
  destruct (Z_lt_ge_dec depth (maxRecursiveRenderDepth settings)); simpl; auto.
  destruct isNull_undefined; auto.
Qed.

Lemma Lit_height_bound value inline depth :
  (lit_height (Lit settings value sourcePath inline depth)
   <= Z.to_nat (maxRecursiveRenderDepth settings - depth))%nat.
Proof.
  revert value inline depth.
  apply (Lit_induction
           (fun _ _ depth out =>
              (lit_height out <= Z.to_nat (maxRecursiveRenderDepth settings - depth))%nat)).
  - intros _ _ depth _. simpl. lia.
  - intros value inline depth Hlt IH.
    assert (Hchild : forall subvalue,
              (S (lit_height (Lit settings subvalue sourcePath inline (depth + 1)))
               <= Z.to_nat (maxRecursiveRenderDepth settings - depth))%nat).
    { intros subvalue. specialize (IH subvalue). lia. }
    destruct value as [| | s | n | b | d | d | l | e | | elements | name entries].
    11: { rewrite Lit_equation_1.
          destruct (Z_lt_ge_dec depth (maxRecursiveRenderDepth settings)) as [? | Hge];
            [simpl | lia].
          destruct inline.
          - rewrite lit_height_children. apply lit_height_all_bound, Forall_map_all.
            intros x. rewrite lit_height_children. simpl. specialize (Hchild x). lia.
          - destruct (List.length elements =? 0)%nat; [simpl; lia |].
            rewrite lit_height_children. apply lit_height_all_bound, Forall_mapi_from_all.
            intros x k. rewrite lit_height_fragment. simpl. specialize (Hchild x). lia. }
    11: { destruct (is_class_instance name) eqn:Hclass.
          - rewrite Lit_equation_1.
            destruct (Z_lt_ge_dec depth (maxRecursiveRenderDepth settings)) as [? | Hge];
              [simpl | lia].
            rewrite Hclass. simpl. lia.
          - specialize (Hchild LUndefined). destruct inline.
            + rewrite (Lit_record_inline settings name entries sourcePath depth Hlt Hclass).
              rewrite lit_height_children. apply lit_height_all_bound, Forall_map_all.
              intros x. rewrite lit_height_children. simpl. lia.
            + destruct entries as [| kv rest].
              * rewrite (Lit_empty_record_block settings name sourcePath depth Hlt Hclass).
                simpl. lia.
              * rewrite (Lit_record_block settings name (kv :: rest) sourcePath depth Hlt Hclass)
                  by discriminate.
                rewrite lit_height_children.
                apply lit_height_all_bound, Forall_mapi_from_all.
                intros x k. unfold record_item. rewrite lit_height_fragment. simpl. lia. }
    all: rewrite Lit_equation_1;
      destruct (Z_lt_ge_dec depth (maxRecursiveRenderDepth settings)) as [? | Hge];
      [simpl | lia]; try destruct isNull_undefined; simpl; lia.
Qed.

(** *** What is handed down *)

(** A nested [<Lit/>] element carries the mode of the call that renders it
    and a depth beyond that call's, within the maximum. *)
Definition lit_props (inline : bool) (depth : Z) (n : VNode) : bool :=
  match n with
  | VLit _ i d _ =>
      Bool.eqb i inline && (depth <? d) && (d <=? maxRecursiveRenderDepth settings)
  | _ => true
  end.

(** A [<Markdown/>] element carries the source path and no [inline]. *)
Definition markdown_props (n : VNode) : bool :=
  match n with
  | VMarkdown _ path i => String.eqb path sourcePath && negb i
  | _ => true
  end.

Lemma every_children P tag cls children :
  every P (VElement tag cls children) = P (VElement tag cls children) && every_all P children.
Proof.
  simpl. f_equal.
  induction children as [| c rest IH]; simpl; [reflexivity | now rewrite IH].
Qed.

Lemma every_fragment P children :
  every P (VFragment children) = P (VFragment children) && every_all P children.
Proof.
  simpl. f_equal.
  induction children as [| c rest IH]; simpl; [reflexivity | now rewrite IH].
Qed.

Lemma every_all_Forall P children :
  Forall (fun c => every P c = true) children -> every_all P children = true.
Proof.
  induction 1 as [| c rest Hc _ IH]; simpl; [reflexivity | now rewrite Hc, IH].
Qed.

Lemma every_weaken (P Q : VNode -> bool) :
  (forall n, P n = true -> Q n = true) ->
  forall n, every P n = true -> every Q n = true.
Proof.
  intros HPQ.
  assert (Hall : forall children,
            Forall (fun c => every P c = true -> every Q c = true) children ->
            every_all P children = true -> every_all Q children = true).
  { induction 1 as [| c rest Hc _ IH]; simpl; [reflexivity |].
    intros H. apply andb_true_iff in H. destruct H as [H1 H2].
    now rewrite Hc, IH. }
  induction n as [s | children IH | tag cls children IH | content path inline | element
                  | value inline depth rendered IH] using VNode_forall_ind; intros H.
  - simpl in *. rewrite andb_true_r in *. auto.
  - rewrite every_fragment in *. apply andb_true_iff in H. destruct H as [H1 H2].
    rewrite (HPQ _ H1). simpl. now apply Hall.
  - rewrite every_children in *. apply andb_true_iff in H. destruct H as [H1 H2].
    rewrite (HPQ _ H1). simpl. now apply Hall.
  - simpl in *. rewrite andb_true_r in *. auto.
  - simpl in *. rewrite andb_true_r in *. auto.
  - simpl in *. apply andb_true_iff in H. destruct H as [H1 H2].
    now rewrite (HPQ _ H1), IH.
Qed.

Definition handed_down (inline : bool) (depth : Z) (n : VNode) : bool :=
  lit_props inline depth n && markdown_props n.

Lemma handed_down_deeper inline depth n :
  handed_down inline (depth + 1) n = true -> handed_down inline depth n = true.
Proof.
  unfold handed_down, lit_props. destruct n; auto.
  intros H. apply andb_true_iff in H. destruct H as [H _].
  apply andb_true_iff in H. destruct H as [H H3].
  apply andb_true_iff in H. destruct H as [H1 H2].
  rewrite H1, H3. apply Z.ltb_lt in H2.
  assert (Hlt : (depth <? depth0) = true) by (apply Z.ltb_lt; lia).
  now rewrite Hlt.
Qed.

Lemma Lit_hands_down value inline depth :
  every (handed_down inline depth) (Lit settings value sourcePath inline depth) = true.
Proof.
  revert value inline depth.
  apply (Lit_induction (fun _ inline depth out => every (handed_down inline depth) out = true)).
  - reflexivity.
  - intros value inline depth Hlt IH.
    assert (Hchild : forall subvalue,
              every (handed_down inline depth)
                (VLit subvalue inline (depth + 1)
                   (Lit settings subvalue sourcePath inline (depth + 1))) = true).
    { intros subvalue. simpl. apply andb_true_iff. split.
      - unfold handed_down, lit_props, markdown_props.
        rewrite Bool.eqb_reflx, andb_true_r. simpl.
        apply andb_true_iff. split; [apply Z.ltb_lt | apply Z.leb_le]; lia.
      - apply (every_weaken (handed_down inline (depth + 1))); [| apply IH].
        intros n. apply handed_down_deeper. }
    destruct value as [| | s | n | b | d | d | l | e | | elements | name entries].
    11: { rewrite Lit_equation_1.
          destruct (Z_lt_ge_dec depth (maxRecursiveRenderDepth settings)) as [? | Hge];
            [simpl Lit_unfold_clause_1 | lia].
          cbn [Lit_clause_1 Lit_clause_1_clause_2].
          destruct inline.
          - rewrite every_children. apply andb_true_iff. split; [reflexivity |].
            apply every_all_Forall, Forall_map_all. intros x.
            rewrite every_children. apply andb_true_iff. split; [reflexivity |].
            cbn [every_all]. now rewrite Hchild.
          - destruct (List.length elements =? 0)%nat; [reflexivity |].
            rewrite every_children. apply andb_true_iff. split; [reflexivity |].
            apply every_all_Forall, Forall_mapi_from_all. intros x k.
            rewrite every_fragment. apply andb_true_iff. split; [reflexivity |].
            cbn [every_all]. rewrite Hchild. reflexivity. }
    11: { destruct (is_class_instance name) eqn:Hclass.
          - rewrite Lit_equation_1.
            destruct (Z_lt_ge_dec depth (maxRecursiveRenderDepth settings)) as [? | Hge];
              [simpl | lia].
            rewrite Hclass. reflexivity.
          - specialize (Hchild LUndefined). destruct inline.
            + rewrite (Lit_record_inline settings name entries sourcePath depth Hlt Hclass).
              rewrite every_children. apply andb_true_iff. split; [reflexivity |].
              apply every_all_Forall, Forall_map_all. intros x.
              rewrite every_children. apply andb_true_iff. split; [reflexivity |].
              cbn [every_all]. rewrite Hchild. reflexivity.
            + destruct entries as [| kv rest].
              * now rewrite (Lit_empty_record_block settings name sourcePath depth Hlt Hclass).
              * rewrite (Lit_record_block settings name (kv :: rest) sourcePath depth Hlt Hclass)
                  by discriminate.
                rewrite every_children. apply andb_true_iff. split; [reflexivity |].
                apply every_all_Forall, Forall_mapi_from_all. intros x k.
                unfold record_item. rewrite every_fragment.
                apply andb_true_iff. split; [reflexivity |].
                cbn [every_all]. rewrite Hchild. reflexivity. }
    all: rewrite Lit_equation_1;
      destruct (Z_lt_ge_dec depth (maxRecursiveRenderDepth settings)) as [? | Hge];
      [simpl | lia]; try destruct isNull_undefined; simpl;
      unfold handed_down, markdown_props; simpl;
      rewrite ?String.eqb_refl; reflexivity.
Qed.

(** *** How often the renderer runs *)

Lemma value_size_array elements :
  value_size (LArray elements) = S (list_sum (map value_size elements)).
Proof.
  simpl. f_equal.
  induction elements as [| x rest IH]; simpl; [reflexivity | now rewrite IH].
Qed.

Lemma value_size_object name entries :
  value_size (LObject name entries)
  = S (list_sum (map (fun kv => value_size (snd kv)) entries)).
Proof.
  simpl. f_equal.
  induction entries as [| [k x] rest IH]; simpl; [reflexivity | now rewrite IH].
Qed.

Lemma value_size_positive value : (1 <= value_size value)%nat.
Proof.
  destruct value; simpl; lia.
Qed.

Lemma nested_lits_fragment children :
  nested_lits (VFragment children) = nested_lits_all children.
Proof.
  simpl. induction children as [| c rest IH]; simpl; [reflexivity | now rewrite IH].
Qed.

Lemma nested_lits_map_bound {A : Type} (f : A -> VNode) (g : A -> nat) l :
  (forall x, (nested_lits (f x) <= g x)%nat) ->
  (nested_lits_all (map f l) <= list_sum (map g l))%nat.
Proof.
  intros H. induction l as [| x l IH]; simpl; [lia |]. specialize (H x). lia.
Qed.

Lemma nested_lits_mapi_bound {A : Type} (f : A -> nat -> VNode) (g : A -> nat) i l :
  (forall x k, (nested_lits (f x k) <= g x)%nat) ->
  (nested_lits_all (mapi_from i f l) <= list_sum (map g l))%nat.
Proof.
  intros H. revert i. induction l as [| x l IH]; intros i; simpl; [lia |].
  specialize (H x i). specialize (IH (S i)). lia.
Qed.

Lemma Lit_undefined_no_lits inline depth :
  nested_lits (Lit settings LUndefined sourcePath inline depth) = O.
Proof.
  destruct (Lit_undefined_leaf inline depth) as [-> | [-> | ->]]; reflexivity.
Qed.

Lemma Lit_runs_bound value inline depth :
  (nested_lits (Lit settings value sourcePath inline depth) < value_size value)%nat.
Proof.
  revert value inline depth.
  apply (Lit_induction (fun value _ _ out => (nested_lits out < value_size value)%nat)).
  - intros value _ _ _. pose proof (value_size_positive value). simpl. lia.
  - intros value inline depth Hlt IH.
    destruct value as [| | s | n | b | d | d | l | e | | elements | name entries].
    11: { rewrite value_size_array, Lit_equation_1.
          destruct (Z_lt_ge_dec depth (maxRecursiveRenderDepth settings)) as [? | Hge];
            [simpl Lit_unfold_clause_1 | lia].
          cbn [Lit_clause_1 Lit_clause_1_clause_2].
          apply Nat.lt_succ_r.
          destruct inline.
          - rewrite nested_lits_children. apply nested_lits_map_bound.
            intros x. rewrite nested_lits_children. simpl. specialize (IH x). lia.
          - destruct (List.length elements =? 0)%nat; [simpl; lia |].
            rewrite nested_lits_children. apply nested_lits_mapi_bound.
            intros x k. rewrite nested_lits_fragment. simpl. specialize (IH x). lia. }
    11: { rewrite value_size_object. apply Nat.lt_succ_r.
          destruct (is_class_instance name) eqn:Hclass.
          - rewrite Lit_equation_1.
            destruct (Z_lt_ge_dec depth (maxRecursiveRenderDepth settings)) as [? | Hge];
              [simpl | lia].
            rewrite Hclass. simpl. lia.
          - destruct inline.
            + rewrite (Lit_record_inline settings name entries sourcePath depth Hlt Hclass).
              rewrite nested_lits_children. apply nested_lits_map_bound.
              intros x. rewrite nested_lits_children. simpl.
              rewrite Lit_undefined_no_lits. pose proof (value_size_positive (snd x)). lia.
            + destruct entries as [| kv rest].
              * rewrite (Lit_empty_record_block settings name sourcePath depth Hlt Hclass).
                simpl. lia.
              * rewrite (Lit_record_block settings name (kv :: rest) sourcePath depth Hlt Hclass)
                  by discriminate.
                rewrite nested_lits_children. apply nested_lits_mapi_bound.
                intros x k. unfold record_item. rewrite nested_lits_fragment. simpl.
                rewrite Lit_undefined_no_lits.
                pose proof (value_size_positive (snd x)). lia. }
    all: rewrite Lit_equation_1;
      destruct (Z_lt_ge_dec depth (maxRecursiveRenderDepth settings)) as [? | Hge];
      [simpl | lia]; try destruct isNull_undefined; simpl; lia.
Qed.

(** *** Lists in inline mode *)

Lemma Lit_list_inline elements depth :
  depth < maxRecursiveRenderDepth settings ->
  Lit settings (LArray elements) sourcePath true depth =
  VElement "ul" "dataview dataview-ul dataview-result-list-ul"
    (map (fun subvalue =>
            VElement "li" "dataview-result-list-li"
              [VLit subvalue true (depth + 1)
                 (Lit settings subvalue sourcePath true (depth + 1))])
       elements).
Proof.
  intros Hlt. rewrite Lit_equation_1.
  destruct (Z_lt_ge_dec depth (maxRecursiveRenderDepth settings)); [reflexivity | lia].
Qed.

Lemma list_inline_items depth elements :
  let items :=
    map (fun subvalue =>
           VElement "li" "dataview-result-list-li"
             [VLit subvalue true (depth + 1)
                (Lit settings subvalue sourcePath true (depth + 1))])
      elements in
  direct_lits_all items =
    map (fun v => VLit v true (depth + 1) (Lit settings v sourcePath true (depth + 1)))
      elements /\
  own_texts_all items = [].
Proof.
  induction elements as [| x rest [IH1 IH2]]; simpl; [now split |].
  simpl in IH1, IH2. now rewrite IH1, IH2.
Qed.

End LitStructure.

(** * More on the unwrapping loop *)

Lemma splice_keeps_others tag selector nodes :
  tag <> selector ->
  count_all tag (splice_all selector nodes) = count_all tag nodes.
Proof.
  intros Hne.
  assert (Hnode : forall n, count_all tag (splice selector n) = count_in tag n).
  { induction n as [data | t children IH] using Node_forall_ind.
    - reflexivity.
    - rewrite splice_Element, count_in_Element.
      assert (Hch : count_all tag (splice_all selector children) = count_all tag children).
      { induction IH as [| c rest Hc _ IHrest]; [reflexivity |].
        rewrite splice_all_cons, count_all_app, count_all_cons. now rewrite Hc, IHrest. }
      destruct (String.eqb_spec t selector) as [-> | Hsel].
      + apply String.eqb_neq in Hne. rewrite String.eqb_sym in Hne. now rewrite Hne, Hch.
      + rewrite count_all_cons, count_in_Element, Hch. simpl. lia. }
  induction nodes as [| c rest IH]; [reflexivity |].
  rewrite splice_all_cons, count_all_app, count_all_cons. now rewrite Hnode, IH.
Qed.

Lemma spliced_none selector container :
  count_descendants selector container = O -> spliced selector container = container.
Proof.
  destruct container as [data | tag children]; simpl; [reflexivity |].
  intros H. now rewrite splice_all_none.
Qed.

Lemma unwrap_paragraphs_clean container :
  count_descendants "p" (unwrap_paragraphs container) = O.
Proof.
  destruct (unwrap_paragraphs_result container) as (H1 & _ & _).
  destruct (unwrap_paragraphs container) as [data | tag children]; [reflexivity |].
  now apply first_match_none.
Qed.

(** * More on the hook *)

Section HookLifeCycle.

Context {T : Type}.
Variable initial : T.

Implicit Types (s : System T) (op : RefreshOperation) (e : Event T).

(** What a notification leaves alone. *)
Record same_loading (s s' : System T) : Prop := {
  loading_phase : phase s' = phase s;
  loading_flag : initialized s' = initialized s;
  loading_state : state s' = state s;
  loading_first : first_loads s' = first_loads s;
  loading_update : last_update initial (history s') = last_update initial (history s)
}.

Lemma same_loading_refl s : same_loading s s.
Proof. constructor; reflexivity. Qed.

Lemma same_loading_trans s1 s2 s3 :
  same_loading s1 s2 -> same_loading s2 s3 -> same_loading s1 s3.
Proof. intros [] []. constructor; congruence. Qed.

Lemma refreshOperation_loading op s : same_loading s (refreshOperation op s).
Proof.
  unfold refreshOperation. destruct (_ && _ && _); constructor; reflexivity.
Qed.

Lemma deliver_loading handlers s : same_loading s (deliver handlers s).
Proof.
  unfold deliver. revert s.
  induction handlers as [| h rest IH]; intros s; simpl; [apply same_loading_refl |].
  eapply same_loading_trans; [apply refreshOperation_loading | apply IH].
Qed.

Lemma useEffect_loading container s : same_loading s (useEffect container s).
Proof.
  unfold useEffect, cleanup.
  destruct (effect_deps s) as [previous |]; [destruct (Nat.eqb previous container) |];
    try destruct (effect_cleanup s) as [[w n] |]; constructor; reflexivity.
Qed.

Lemma useEffect_in_flight container s :
  in_flight (useEffect container s) = in_flight s.
Proof.
  unfold useEffect, cleanup.
  destruct (effect_deps s) as [previous |]; [destruct (Nat.eqb previous container) |];
    try destruct (effect_cleanup s) as [[w n] |]; reflexivity.
Qed.

(** The first load happened once the view has been rendered, and never
    again; the state is what the last resolved compute left. *)
Record loaded (s : System T) : Prop := {
  loaded_first : first_loads s = match phase s with NotMounted => O | _ => 1%nat end;
  loaded_flag : phase s <> NotMounted -> initialized s = true;
  loaded_idle : phase s = NotMounted -> in_flight s = [] /\ state s = initial;
  loaded_state : state s = last_update initial (history s)
}.

Lemma loaded_frame s s' :
  same_loading s s' -> (phase s = NotMounted -> in_flight s' = []) ->
  loaded s -> loaded s'.
Proof.
  intros [Hp Hf Hs H1 Hu] Hidle [L1 L2 L3 L4]. constructor.
  - now rewrite H1, Hp.
  - rewrite Hp, Hf. exact L2.
  - rewrite Hp, Hs. intros Hn. split; [now apply Hidle | now apply L3].
  - now rewrite Hs, Hu.
Qed.

Lemma start_loaded revision shown st : loaded (start initial revision shown st).
Proof. constructor; simpl; auto; congruence. Qed.

Lemma render_loaded container s : loaded s -> loaded (render initial container s).
Proof.
  intros Hl. unfold render. destruct (phase s) eqn:Hphase; [| | exact Hl].
  - destruct Hl as [L1 L2 L3 L4]. rewrite Hphase in L1.
    destruct (L3 Hphase) as [Hidle Hstate].
    unfold useIndexBackedState. simpl initialized. cbv iota.
    pose proof (useEffect_loading container
                  (setInitialized true (compute FirstLoad (mount initial s))))
      as [Hp Hf Hs H1 Hu].
    constructor.
    + rewrite H1, Hp. unfold first_loads in *. simpl. now rewrite L1.
    + intros _. now rewrite Hf.
    + rewrite Hp. simpl. congruence.
    + rewrite Hs, Hu. simpl. congruence.
  - unfold useIndexBackedState.
    assert (Hinit : initialized s = true) by (apply Hl; congruence).
    rewrite Hinit.
    apply (loaded_frame s); [apply useEffect_loading | congruence | exact Hl].
Qed.

Lemma onunload_loaded s : loaded s -> loaded (onunload s).
Proof.
  intros Hl. unfold onunload.
  destruct (phase s) eqn:Hphase; try exact Hl.
  destruct Hl as [L1 L2 L3 L4]. rewrite Hphase in L1.
  assert (Hinit : initialized s = true) by (apply L2; congruence).
  unfold cleanup. destruct (effect_cleanup s) as [[w n] |]; constructor;
    unfold first_loads; simpl; auto; discriminate.
Qed.

Lemma resolve_loaded k v s : loaded s -> loaded (resolve k v s).
Proof.
  intros [L1 L2 L3 L4]. unfold resolve.
  destruct (existsb (Nat.eqb k) (in_flight s)) eqn:Hk.
  - assert (Hm : phase s <> NotMounted).
    { intros Hn. destruct (L3 Hn) as [Hidle _]. rewrite Hidle in Hk. discriminate. }
    constructor; simpl; auto. intros Hn. congruence.
  - constructor; auto.
Qed.

Lemma step_loaded s e : consistent s -> loaded s -> loaded (step initial s e).
Proof.
  intros Hc Hl.
  assert (Hidle : phase s = NotMounted ->
                  workspace_handlers s = [] /\ node_handlers s = []).
  { intros Hn. destruct Hc as [Hphase _ _ _]. rewrite Hn in Hphase. tauto. }
  destruct e; simpl.
  - now apply render_loaded.
  - now apply onunload_loaded.
  - apply (loaded_frame s); [apply deliver_loading | | exact Hl].
    intros Hn. destruct (Hidle Hn) as [-> _]. simpl. now apply Hl.
  - apply (loaded_frame s); [apply deliver_loading | | exact Hl].
    intros Hn. destruct (Hidle Hn) as [_ ->]. simpl. now apply Hl.
  - destruct Hl. now constructor.
  - destruct Hl. now constructor.
  - destruct Hl. now constructor.
  - now apply resolve_loaded.
Qed.

Lemma run_loaded s events :
  consistent s -> loaded s -> loaded (run initial s events).
Proof.
  unfold run. revert s.
  induction events as [| e rest IH]; intros s Hc Hl; simpl; [exact Hl |].
  apply IH; [now apply step_consistent | now apply step_loaded].
Qed.

Lemma reached_loaded revision shown st events :
  loaded (run initial (start initial revision shown st) events).
Proof.
  apply run_loaded; [apply start_consistent | apply start_loaded].
Qed.

Lemma reached_consistent revision shown st events :
  consistent (run initial (start initial revision shown st) events).
Proof.
  apply run_consistent, start_consistent.
Qed.

(** *** The state *)

Lemma useIndexBackedState_state container s :
  state (useIndexBackedState container s) = state s.
Proof.
  unfold useIndexBackedState.
  destruct (initialized s); now rewrite (loading_state _ _ (useEffect_loading container _)).
Qed.

(** An event that is not the resolution of a compute keeps the state, the
    first render of a view included. *)
Lemma step_keeps_state s e :
  loaded s -> is_resolution e = false -> state (step initial s e) = state s.
Proof.
  intros Hl He. destruct e; simpl; try discriminate; try reflexivity.
  - unfold render. destruct (phase s) eqn:Hphase; [| | reflexivity].
    + rewrite useIndexBackedState_state. simpl. symmetry. now apply Hl.
    + apply useIndexBackedState_state.
  - unfold onunload, cleanup. destruct (phase s); try reflexivity.
    destruct (effect_cleanup s) as [[w n] |]; reflexivity.
  - apply deliver_loading.
  - apply deliver_loading.
Qed.

Lemma run_keeps_state s later :
  consistent s -> loaded s -> forallb (fun e => negb (is_resolution e)) later = true ->
  state (run initial s later) = state s.
Proof.
  unfold run. revert s.
  induction later as [| e rest IH]; intros s Hc Hl Hev; simpl in *; [reflexivity |].
  apply andb_true_iff in Hev. destruct Hev as [He Hrest]. apply negb_true_iff in He.
  rewrite IH; [now apply step_keeps_state | now apply step_consistent
              | now apply step_loaded | exact Hrest].
Qed.

(** Two computes in flight: whichever resolves last decides the state. *)
Lemma resolve_state k v s :
  In k (in_flight s) -> state (resolve k v s) = v.
Proof.
  intros Hin. unfold resolve.
  assert (Hex : existsb (Nat.eqb k) (in_flight s) = true).
  { apply existsb_exists. exists k. split; [exact Hin | apply Nat.eqb_refl]. }
  now rewrite Hex.
Qed.

Lemma resolve_other_in_flight k k' v s :
  In k' (in_flight s) -> k' <> k -> In k' (in_flight (resolve k v s)).
Proof.
  intros Hin Hne. unfold resolve. destruct (existsb _ _); [simpl | exact Hin].
  apply filter_In. split; [exact Hin |]. apply negb_true_iff. now apply Nat.eqb_neq.
Qed.

(** *** The container of the last render *)

Lemma render_deps container s :
  phase s <> Unmounted -> effect_deps (render initial container s) = Some container.
Proof.
  intros Hphase.
  assert (Huse : forall s0, effect_deps (useEffect container s0) = Some container).
  { intros s0. unfold useEffect.
    destruct (effect_deps s0) as [previous |] eqn:Hd; [| reflexivity].
    destruct (Nat.eqb_spec previous container) as [-> | Hne]; [exact Hd | reflexivity]. }
  unfold render, useIndexBackedState. destruct (phase s); try apply Huse. congruence.
Qed.

Lemma render_phase container s :
  phase (render initial container s) = Mounted -> phase s <> Unmounted.
Proof.
  unfold render. destruct (phase s) eqn:Hphase; congruence.
Qed.

(** Every registered handler belongs to the container of the effect. *)
Lemma handlers_container s container :
  consistent s -> effect_deps s = Some container ->
  Forall (fun h => closure_container (snd h) = container) (workspace_handlers s) /\
  Forall (fun h => closure_container (snd h) = container) (node_handlers s).
Proof.
  intros [Hphase _ _ _] Hdeps. destruct (phase s).
  - destruct Hphase as (_ & -> & ->). now split.
  - destruct Hphase as (w & n & op & _ & -> & -> & Hd & _).
    assert (closure_container op = container) by congruence.
    split; repeat constructor; assumption.
  - destruct Hphase as (_ & -> & ->). now split.
Qed.

(** What a notification reaches: the handlers of its channel. *)
Definition reached (e : Event T) (s : System T) : list (EventRef * RefreshOperation) :=
  match e with
  | RefreshViews => workspace_handlers s
  | NodeInserted container =>
      filter (fun h => Nat.eqb (closure_container (snd h)) container) (node_handlers s)
  | _ => []
  end.

Lemma step_notification s e :
  is_notification e = true -> step initial s e = deliver (reached e s) s.
Proof.
  destruct e; simpl; try discriminate; reflexivity.
Qed.

Lemma reached_at_most_one s e :
  consistent s -> reached e s = [] \/ exists h, reached e s = [h] /\
                                      (In h (workspace_handlers s) \/ In h (node_handlers s)).
Proof.
  intros Hs.
  destruct (consistent_handlers s Hs) as [[Hw Hn] | (w & n & op & Hw & Hn)];
    destruct e; simpl; rewrite ?Hw, ?Hn; simpl; auto.
  - right. exists (w, op). simpl. auto.
  - destruct (Nat.eqb _ _); [right | now left]. exists (n, op). simpl. auto.
Qed.

(** *** Revisions *)

Lemma run_settled_revision s events :
  settled s -> forallb (keeps_revision (index_revision s)) events = true ->
  settled (run initial s events) /\ index_revision (run initial s events) = index_revision s.
Proof.
  unfold run. revert s.
  induction events as [| e rest IH]; intros s Hs Hev; simpl in *; [now split |].
  apply andb_true_iff in Hev. destruct Hev as [He Hrest].
  destruct (step_settled initial s e Hs He) as [Hs' Hrev].
  destruct (IH _ Hs') as [H1 H2]; [now rewrite Hrev | split; [exact H1 | congruence]].
Qed.

End HookLifeCycle.

(** * The hook over an index whose revision only increases *)

Section HookRevisions.

Context {T : Type}.
Variable initial : T.

Implicit Types (s : System T) (op : RefreshOperation) (e : Event T).

(** No [lastReload] is ahead of the index, and no closure is ahead of the
    cell. *)
Record ordered (s : System T) : Prop := {
  ordered_cell : lastReload s <= index_revision s;
  ordered_workspace :
    Forall (fun h => closure_lastReload (snd h) <= lastReload s) (workspace_handlers s);
  ordered_node :
    Forall (fun h => closure_lastReload (snd h) <= lastReload s) (node_handlers s)
}.

Lemma Forall_closure_le (bound bound' : Z) (handlers : list (EventRef * RefreshOperation)) :
  bound <= bound' ->
  Forall (fun h => closure_lastReload (snd h) <= bound) handlers ->
  Forall (fun h => closure_lastReload (snd h) <= bound') handlers.
Proof.
  intros Hle. apply Forall_impl. intros h Hh. lia.
Qed.

Lemma start_ordered revision shown st : ordered (start initial revision shown st).
Proof. constructor; simpl; auto. lia. Qed.

Lemma cleanup_ordered s : ordered s -> ordered (cleanup s).
Proof.
  intros [H1 H2 H3]. unfold cleanup.
  destruct (effect_cleanup s) as [[w n] |]; [| now constructor].
  constructor; simpl; auto using Forall_without.
Qed.

Lemma effect_ordered container s : ordered s -> ordered (effect container s).
Proof.
  intros [H1 H2 H3].
  constructor; simpl; auto; apply Forall_app; split; auto; repeat constructor; simpl; lia.
Qed.

Lemma useIndexBackedState_ordered container s :
  ordered s -> ordered (useIndexBackedState container s).
Proof.
  intros Hs.
  assert (H1 : ordered (if initialized s then s
                        else setInitialized true (compute FirstLoad s))).
  { destruct (initialized s); [exact Hs |]. destruct Hs. now constructor. }
  unfold useIndexBackedState, useEffect.
  destruct (effect_deps _) as [previous |].
  - destruct (Nat.eqb previous container); [exact H1 |].
    now apply effect_ordered, cleanup_ordered.
  - now apply effect_ordered.
Qed.

Lemma render_ordered container s : ordered s -> ordered (render initial container s).
Proof.
  intros Hs. unfold render. destruct (phase s).
  - apply useIndexBackedState_ordered. destruct Hs as [H1 H2 H3].
    constructor; simpl; [lia | |]; eapply Forall_closure_le; eauto.
  - now apply useIndexBackedState_ordered.
  - exact Hs.
Qed.

Lemma refreshOperation_ordered op s : ordered s -> ordered (refreshOperation op s).
Proof.
  intros Hs. rewrite refreshOperation_gate. destruct (gate op s); [| exact Hs].
  destruct Hs as [H1 H2 H3].
  constructor; simpl; [lia | |]; eapply Forall_closure_le; eauto.
Qed.

Lemma deliver_ordered handlers s : ordered s -> ordered (deliver handlers s).
Proof.
  unfold deliver. revert s.
  induction handlers as [| h rest IH]; intros s Hs; simpl; [exact Hs |].
  now apply IH, refreshOperation_ordered.
Qed.

Definition moves_forward (s : System T) (e : Event T) : Prop :=
  match e with
  | IndexChanged r => index_revision s <= r
  | _ => True
  end.

Lemma step_ordered s e :
  ordered s -> moves_forward s e -> ordered (step initial s e).
Proof.
  intros Hs He. destruct e; simpl in *.
  - now apply render_ordered.
  - unfold onunload. destruct (phase s); try exact Hs.
    destruct (cleanup_ordered s Hs). now constructor.
  - now apply deliver_ordered.
  - now apply deliver_ordered.
  - destruct Hs as [H1 H2 H3]. constructor; simpl; auto. lia.
  - destruct Hs. now constructor.
  - destruct Hs. now constructor.
  - unfold resolve. destruct (existsb _ _); [| exact Hs]. destruct Hs. now constructor.
Qed.

Lemma step_revision s e :
  index_revision (step initial s e)
  = match e with IndexChanged r => r | _ => index_revision s end.
Proof.
  destruct e; simpl; try reflexivity.
  - apply render_world.
  - apply onunload_world.
  - apply deliver_world.
  - apply deliver_world.
  - apply resolve_world.
Qed.

Lemma run_ordered s events :
  ordered s -> advancing (index_revision s) events = true ->
  ordered (run initial s events).
Proof.
  unfold run. revert s.
  induction events as [| e rest IH]; intros s Hs Hev; [exact Hs |].
  cbn [fold_left].
  assert (He : moves_forward s e /\
               advancing (index_revision (step initial s e)) rest = true).
  { rewrite step_revision. destruct e; cbn [advancing moves_forward] in *; auto.
    apply andb_true_iff in Hev. destruct Hev as [Hle Hrest]. apply Z.leb_le in Hle. auto. }
  destruct He as [Hforward Hrest].
  apply IH; [now apply step_ordered | exact Hrest].
Qed.

(** *** After the teardown, continued *)

Lemma step_torn_down_quiet s e :
  torn_down s ->
  returns initial s e = None /\
  phase (step initial s e) = Unmounted /\
  lastReload (step initial s e) = lastReload s /\
  forall ref, subscribed ref (step initial s e) = subscribed ref s /\
              released ref (step initial s e) = released ref s.
Proof.
  intros [H1 H2 H3]. destruct e; simpl.
  - unfold render. rewrite H1. auto.
  - unfold onunload. rewrite H1. auto.
  - rewrite H2. simpl. auto.
  - rewrite H3. simpl. auto.
  - auto.
  - auto.
  - auto.
  - unfold resolve. destruct (existsb _ _); simpl; auto.
Qed.

Lemma run_torn_down_quiet s events :
  torn_down s ->
  returned initial s events = [] /\
  phase (run initial s events) = Unmounted /\
  lastReload (run initial s events) = lastReload s /\
  forall ref, subscribed ref (run initial s events) = subscribed ref s /\
              released ref (run initial s events) = released ref s.
Proof.
  unfold run. revert s.
  induction events as [| e rest IH]; intros s Hs; simpl.
  - destruct Hs. auto.
  - destruct (step_torn_down_quiet s e Hs) as (Hret & Hphase & Hlast & Hsub).
    destruct (step_torn_down initial s e Hs) as [Hs' _].
    destruct (IH _ Hs') as (Hret' & Hphase' & Hlast' & Hsub').
    rewrite Hret. repeat split; try assumption; try congruence.
    + rewrite (proj1 (Hsub' ref)). apply Hsub.
    + rewrite (proj2 (Hsub' ref)). apply Hsub.
Qed.

(** Before the teardown a render hands the state to the component. *)
Lemma returns_while_rendered container s :
  loaded initial s -> phase s <> Unmounted ->
  returns initial s (Render container) = Some (state s).
Proof.
  intros Hl Hphase. unfold returns.
  rewrite <- (step_keeps_state initial s (Render container) Hl eq_refl).
  destruct (phase s); [reflexivity | reflexivity | congruence].
Qed.

End HookRevisions.

(** * A concrete value model for the examples

    Numbers are integers printed in decimal, dates and durations are
    printed as their number, a link is its markdown text, and
    [Values.isNull(undefined)] answers [true]. *)

Module Sample.

Definition decimal (n : Z) : string := NilZero.string_of_int (Z.to_int n).

#[export] Instance model : ValueModel := {|
  JsNumber := Z;
  DateTime := Z;
  Duration := Z;
  Link := string;
  HtmlElement := string;
  numberToString := decimal;
  renderMinimalDate := fun d _ _ => decimal d;
  renderMinimalDuration := decimal;
  currentLocale := "en";
  link_markdown := fun l => l;
  isNull_undefined := true
|}.

Definition settings : DataviewSettings :=
  {| maxRecursiveRenderDepth := 4; renderNullAs := "–"; refreshEnabled := true |}.

Definition not_available : DataviewSettings :=
  {| maxRecursiveRenderDepth := 4; renderNullAs := "N/A"; refreshEnabled := true |}.

Definition always_shown : Container -> bool := fun _ => true.

(** A view over an index at revision 0, every container shown, not yet
    mounted. *)
Definition view : System string := start "initial" 0 always_shown settings.

End Sample.

(** * The claims *)

(** C1: at a depth equal to or beyond [maxRecursiveRenderDepth], [Lit]
    returns the truncation placeholder whatever the value is, and the
    result contains no further invocation of [Lit]. *)
Theorem Lit_beyond_max_depth {VM : ValueModel} (settings : DataviewSettings)
  (value : Literal) (sourcePath : string) (inline : bool) (depth : Z) :
  depth >= maxRecursiveRenderDepth settings ->
  Lit settings value sourcePath inline depth = VFragment [VText "..."] /\
  nested_lits (Lit settings value sourcePath inline depth) = O.
Proof.
  intros H. rewrite Lit_at_max by lia. now split.
Qed.

Lemma Lit_beyond_max_depth_witness :
  Lit (VM := Sample.model) Sample.settings (LArray [LNumber (VM := Sample.model) 1; LObject None [("k", LNull)]]) "note.md" false 4
    = VFragment [VText "..."] /\
  nested_lits
    (Lit (VM := Sample.model) Sample.settings (LArray [LNumber (VM := Sample.model) 1; LObject None [("k", LNull)]]) "note.md" false 4)
    = O.
Proof.
  apply (Lit_beyond_max_depth (VM := Sample.model) Sample.settings). simpl. lia.
Defined.

(** C2: a view mounted at revision 0, shown, with refresh enabled.  The
    index advances once, to revision 1, and two refresh notifications
    follow.  The first triggers a recompute and stores 1 in [lastReload];
    the second, at the same revision, triggers another one, because the
    registered [refreshOperation] still compares the revision with the
    [lastReload] of the render that created it.  With refresh disabled the
    same notifications trigger none. *)
Theorem second_notification_recomputes_again :
  let mounted := run "initial" Sample.view [Render 1%nat; IndexChanged 1] in
  let once := step "initial" mounted RefreshViews in
  let twice := step "initial" once RefreshViews in
  recomputes mounted = 0%nat /\
  recomputes once = 1%nat /\ lastReload once = 1 /\ index_revision once = 1 /\
  recomputes twice = 2%nat /\
  recomputes
    (run "initial" Sample.view
       [Render 1%nat; RefreshEnabledChanged false; IndexChanged 1; RefreshViews; RefreshViews])
    = 0%nat.
Proof.
  repeat split; vm_compute; reflexivity.
Qed.

(** C3 as the specification states it: on a mounted view whose container
    is shown, with refresh enabled, a became-visible notification always
    triggers exactly one recompute. *)
Definition became_visible_always_recomputes : Prop :=
  forall (T : Type) (initial : T) revision shown st events container,
    let s := run initial (start initial revision shown st) events in
    phase s = Mounted ->
    effect_deps s = Some container ->
    isShown s container = true ->
    refreshEnabled (settings s) = true ->
    recomputes (step initial s (NodeInserted container)) = S (recomputes s).

(** C3, counterexample: the view is mounted on container 1 and the index
    has not moved; the became-visible notification triggers no recompute. *)
Lemma became_visible_without_change : ~ became_visible_always_recomputes.
Proof.
  intros H.
  specialize (H string "initial" 0 Sample.always_shown Sample.settings
                [Render 1%nat] 1%nat eq_refl eq_refl eq_refl eq_refl).
  vm_compute in H. discriminate.
Qed.

(** C3, amended: over an index whose revision only increases, a
    became-visible notification on a mounted view triggers exactly one
    recompute, and stores the revision in [lastReload], when the revision
    has advanced since the last recompute was triggered (since the view was
    set up when none was), the container is shown and refresh is enabled.
    It changes nothing when the revision has not changed since the view was
    set up, when the container is not shown, or when refresh is disabled.
    It never triggers more than one recompute. *)
Theorem became_visible_recomputes_on_change {T : Type} (initial : T) (revision : Z)
  (shown : Container -> bool) (st : DataviewSettings) (events : list (Event T))
  (container : Container) :
  let s := run initial (start initial revision shown st) events in
  let s' := step initial s (NodeInserted container) in
  (recomputes s' <= recomputes s + 1)%nat /\
  (forallb (keeps_revision revision) events = true
   \/ isShown s container = false
   \/ refreshEnabled (settings s) = false ->
   s' = s) /\
  (advancing revision events = true ->
   phase s = Mounted -> effect_deps s = Some container ->
   isShown s container = true -> refreshEnabled (settings s) = true ->
   lastReload s < index_revision s ->
   recomputes s' = S (recomputes s) /\ lastReload s' = index_revision s).
Proof.
  intros s s'.
  assert (Hs : consistent s) by apply run_consistent, start_consistent.
  split; [| split].
  - apply notification_at_most_one; eauto.
  - intros Hcase. unfold s'. simpl.
    apply deliver_closed_gate.
    apply Forall_forall. intros h Hin. apply filter_In in Hin.
    destruct Hin as [Hin Hc]. apply Nat.eqb_eq in Hc.
    destruct Hcase as [Hkeep | [Hshown | Hoff]].
    + apply settled_gate.
      assert (Hset : settled s) by (apply run_settled; [apply start_settled | exact Hkeep]).
      destruct Hset as [_ _ Hnode]. rewrite Forall_forall in Hnode. now apply Hnode.
    + unfold gate. rewrite Hc, Hshown. now rewrite andb_false_r.
    + unfold gate. rewrite Hoff. now rewrite andb_false_r.
  - intros Hadv Hphase Hdeps Hshown Hon Hnew.
    assert (Hord : ordered s).
    { apply run_ordered; [apply start_ordered | exact Hadv]. }
    destruct Hs as [Hp _ _ _]. rewrite Hphase in Hp.
    destruct Hp as (w & n & op & _ & _ & Hn & Hd & _).
    assert (Hc : closure_container op = container) by congruence.
    assert (Hold : closure_lastReload op <= lastReload s).
    { destruct Hord as [_ _ Hnode]. rewrite Hn in Hnode. now apply Forall_inv in Hnode. }
    assert (Hgate : gate op s = true).
    { unfold gate. rewrite Hc, Hshown, Hon.
      assert (Hneq : (closure_lastReload op =? index_revision s) = false)
        by (apply Z.eqb_neq; lia).
      now rewrite Hneq. }
    assert (Hstep : s' = refreshOperation op s).
    { unfold s'. simpl. rewrite Hn. simpl. now rewrite Hc, Nat.eqb_refl. }
    rewrite Hstep. split.
    + rewrite refreshOperation_recomputes, Hgate. lia.
    + now rewrite refreshOperation_gate, Hgate.
Qed.

Lemma became_visible_recomputes_on_change_witness :
  (let s := run "initial" Sample.view
              [Render 1%nat; IndexChanged 1; RefreshViews; IndexChanged 2] in
   let s' := step "initial" s (NodeInserted 1%nat) in
   recomputes s' = S (recomputes s) /\ lastReload s' = index_revision s) /\
  (let s := run "initial" Sample.view
              [Render 1%nat; ShownChanged 1%nat false; IndexChanged 3] in
   step "initial" s (NodeInserted 1%nat) = s).
Proof.
  split.
  - apply (proj2 (proj2 (became_visible_recomputes_on_change "initial" 0
                           Sample.always_shown Sample.settings
                           [Render 1%nat; IndexChanged 1; RefreshViews; IndexChanged 2]
                           1%nat)));
      reflexivity.
  - apply (proj1 (proj2 (became_visible_recomputes_on_change "initial" 0
                           Sample.always_shown Sample.settings
                           [Render 1%nat; ShownChanged 1%nat false; IndexChanged 3]
                           1%nat))).
    right. left. reflexivity.
Defined.



(** C5: a plain record with the single entry [a: 1].  The entry renders as
    "$", "$", ":", " " and the rendering of [undefined]: [entry.key] and
    [entry.value] are read from the pair [["a", 1]], which has no such
    properties, so the key "a" and the value 1 are absent from the output
    in both modes. *)
Theorem Lit_record_entry_loses_key_and_value :
  Lit (VM := Sample.model) Sample.settings (LObject (Some "Object") [("a", LNumber (VM := Sample.model) 1)]) "note.md" false 0 =
    VElement "span" "dataview dataview-result-object-span"
      [VFragment
         [VText "$"; VText ""; VText "$"; VText ":"; VText " ";
          VLit LUndefined false 1 (VMarkdown "–" "note.md" false)]] /\
  Lit (VM := Sample.model) Sample.settings (LObject (Some "Object") [("a", LNumber (VM := Sample.model) 1)]) "note.md" true 0 =
    VElement "ul" "dataview dataview-ul dataview-result-object-ul"
      [VElement "li" "dataview dataview-li dataview-result-object-li"
         [VText "$"; VText ":"; VText " ";
          VLit LUndefined true 1 (VMarkdown "–" "note.md" false)]] /\
  rendered_text
    (Lit (VM := Sample.model) Sample.settings (LObject (Some "Object") [("a", LNumber (VM := Sample.model) 1)]) "note.md" false 0)
    = "$$: –".
Proof.
  repeat split; vm_compute; reflexivity.
Qed.

(** C6: the list [[1, "a", null]] in a block context with [renderNullAs]
    "–".  Three children and two ", " separators, but every child is
    preceded by a text node "$" and the number renders as "$1": the text is
    "$$1$, a$, –" and not "1, a, –". *)
Theorem Lit_list_scenario :
  Lit (VM := Sample.model) Sample.settings (LArray [LNumber (VM := Sample.model) 1; LString "a"; LNull]) "note.md" false 0 =
    VElement "span" "dataview dataview-result-list-span"
      [VFragment
         [VText "$"; VText "";
          VLit (LNumber (VM := Sample.model) 1) false 1 (VFragment [VText "$"; VText "1"])];
       VFragment
         [VText "$"; VText ", ";
          VLit (LString "a") false 1 (VMarkdown "a" "note.md" false)];
       VFragment
         [VText "$"; VText ", ";
          VLit LNull false 1 (VMarkdown "–" "note.md" false)]] /\
  rendered_text
    (Lit (VM := Sample.model) Sample.settings (LArray [LNumber (VM := Sample.model) 1; LString "a"; LNull]) "note.md" false 0)
    = "$$1$, a$, –" /\
  rendered_text
    (Lit (VM := Sample.model) Sample.settings (LArray [LNumber (VM := Sample.model) 1; LString "a"; LNull]) "note.md" false 0)
    <> "1, a, –".
Proof.
  repeat split; try (vm_compute; reflexivity).
  vm_compute. discriminate.
Qed.

(** C7: an object made by the class [Page] that holds a plain record.
    Nothing of it is rendered and [Lit] is not invoked again, but the
    placeholder reads "<$Page>" and not "<Page>". *)
Theorem Lit_class_instance_scenario :
  let value := @LObject Sample.model (Some "Page") [("inner", LObject (Some "Object") [("k", LNumber (VM := Sample.model) 1)])] in
  Lit (VM := Sample.model) Sample.settings value "note.md" false 0 =
    VFragment [VText "<$"; VText "Page"; VText ">"] /\
  nested_lits (Lit (VM := Sample.model) Sample.settings value "note.md" false 0) = O /\
  rendered_text (Lit (VM := Sample.model) Sample.settings value "note.md" false 0) = "<$Page>" /\
  rendered_text (Lit (VM := Sample.model) Sample.settings value "note.md" false 0) <> "<Page>".
Proof.
  repeat split; try (vm_compute; reflexivity).
  vm_compute. discriminate.
Qed.

(** C8: with [renderNullAs] set to "N/A", the Null value renders to the same
    tree as the String value "N/A", for every source path, mode and depth. *)
Theorem Lit_null_round_trip {VM : ValueModel} (settings : DataviewSettings)
  (sourcePath : string) (inline : bool) (depth : Z) :
  renderNullAs settings = "N/A" ->
  Lit settings LNull sourcePath inline depth =
  Lit settings (LString "N/A") sourcePath inline depth.
Proof.
  intros H. rewrite !Lit_equation_1.
  destruct (Z_lt_ge_dec depth (maxRecursiveRenderDepth settings)); simpl;
    [now rewrite H | reflexivity].
Qed.

Lemma Lit_null_round_trip_witness :
  Lit (VM := Sample.model) Sample.not_available LNull "note.md" false 0 =
  Lit (VM := Sample.model) Sample.not_available (LString "N/A") "note.md" false 0.
Proof.
  apply (Lit_null_round_trip (VM := Sample.model) Sample.not_available). reflexivity.
Defined.

(** C9: in inline mode the callback that runs after the markdown renderer
    resolves returns (the loop ends on every container), no [p] element is
    left at any depth below the container, the text is unchanged, and the
    container is the one obtained by replacing every [p] by its children. *)
Theorem Markdown_inline_unwraps (container : Node) :
  Markdown_then true (Some container) = Some (unwrap_paragraphs container) /\
  querySelector "p" (unwrap_paragraphs container) = None /\
  count_descendants "p" (unwrap_paragraphs container) = O /\
  textContent (unwrap_paragraphs container) = textContent container /\
  unwrap_paragraphs container = spliced "p" container.
Proof.
  destruct (unwrap_paragraphs_result container) as (H1 & H2 & H3).
  repeat split; try assumption.
  destruct (unwrap_paragraphs container) as [data | tag children]; [reflexivity |].
  now apply first_match_none.
Qed.

(** C10: below the maximum depth an empty list rendered inline is an empty
    [ul] with no item, and a list renders as the "<Empty List>" placeholder
    exactly when it is empty and the mode is not inline. *)
Theorem Lit_empty_list_inline {VM : ValueModel} (settings : DataviewSettings)
  (sourcePath : string) (depth : Z) :
  depth < maxRecursiveRenderDepth settings ->
  Lit settings (LArray []) sourcePath true depth =
    VElement "ul" "dataview dataview-ul dataview-result-list-ul" [] /\
  forall elements inline,
    Lit settings (LArray elements) sourcePath inline depth = VFragment [VText "<Empty List>"]
    <-> inline = false /\ elements = [].
Proof.
  intros Hd. split.
  - rewrite Lit_equation_1.
    destruct (Z_lt_ge_dec depth (maxRecursiveRenderDepth settings)); [reflexivity | lia].
  - intros elements inline. rewrite Lit_equation_1.
    destruct (Z_lt_ge_dec depth (maxRecursiveRenderDepth settings)); [simpl | lia].
    destruct inline; [split; [discriminate | intros [? _]; discriminate] |].
    destruct elements as [| x rest]; simpl.
    + split; auto.
    + split; [discriminate | intros [_ ?]; discriminate].
Qed.

Lemma Lit_empty_list_inline_witness :
  Lit (VM := Sample.model) Sample.settings (LArray []) "note.md" true 0 =
    VElement "ul" "dataview dataview-ul dataview-result-list-ul" [] /\
  forall elements inline,
    Lit (VM := Sample.model) Sample.settings (LArray elements) "note.md" inline 0
      = VFragment [VText "<Empty List>"]
    <-> inline = false /\ elements = [].
Proof.
  apply (Lit_empty_list_inline (VM := Sample.model) Sample.settings). simpl. lia.
Defined.

(** * Further properties *)

(** X1: [<Lit/>] elements are never nested deeper than the distance from
    the depth of the call to [maxRecursiveRenderDepth], whatever the
    value. *)
Theorem Lit_nesting_is_bounded {VM : ValueModel} (settings : DataviewSettings)
  (value : Literal) (sourcePath : string) (inline : bool) (depth : Z) :
  (lit_height (Lit settings value sourcePath inline depth)
   <= Z.to_nat (maxRecursiveRenderDepth settings - depth))%nat.
Proof.
  apply Lit_height_bound.
Qed.

(** X2: every nested [<Lit/>] element of a rendering, at any level, has the
    [inline] flag of the outer call and a depth greater than the outer
    depth and at most [maxRecursiveRenderDepth]. *)
Theorem Lit_hands_down_mode_and_depth {VM : ValueModel} (settings : DataviewSettings)
  (value : Literal) (sourcePath : string) (inline : bool) (depth : Z) :
  every (lit_props settings inline depth) (Lit settings value sourcePath inline depth) = true.
Proof.
  apply (every_weaken (handed_down settings sourcePath inline depth));
    [| apply Lit_hands_down].
  intros n H. unfold handed_down in H. apply andb_true_iff in H. tauto.
Qed.

(** X3: every [<Markdown/>] element of a rendering, at any level, is given
    the source path of the outer call and no [inline], also when the outer
    call is inline. *)
Theorem Lit_markdown_gets_source_path {VM : ValueModel} (settings : DataviewSettings)
  (value : Literal) (sourcePath : string) (inline : bool) (depth : Z) :
  every (markdown_props sourcePath) (Lit settings value sourcePath inline depth) = true.
Proof.
  apply (every_weaken (handed_down settings sourcePath inline depth));
    [| apply Lit_hands_down].
  intros n H. unfold handed_down in H. apply andb_true_iff in H. tauto.
Qed.

(** X4: a non-empty list rendered in a block context below the maximum
    depth has one nested [<Lit/>] per element, in the order of the list, at
    depth + 1, and one ", " text node fewer than elements. *)
Theorem Lit_block_list_children {VM : ValueModel} (settings : DataviewSettings)
  (elements : list Literal) (sourcePath : string) (depth : Z) :
  depth < maxRecursiveRenderDepth settings -> elements <> [] ->
  let out := Lit settings (LArray elements) sourcePath false depth in
  direct_lits out =
    map (fun v => VLit v false (depth + 1) (Lit settings v sourcePath false (depth + 1)))
      elements /\
  count_occ string_dec (own_texts out) ", " = (List.length elements - 1)%nat.
Proof.
  intros Hd Hne. now apply Lit_list_block_children.
Qed.

Lemma Lit_block_list_children_witness :
  let elements := [@LString Sample.model "a"; LNull; LArray [LString "b"]] in
  let out := Lit Sample.settings (LArray elements) "note.md" false 0 in
  direct_lits out =
    map (fun v => VLit v false (0 + 1) (Lit Sample.settings v "note.md" false (0 + 1)))
      elements /\
  count_occ string_dec (own_texts out) ", " = (List.length elements - 1)%nat.
Proof.
  apply (Lit_block_list_children (VM := Sample.model) Sample.settings);
    [simpl; lia | discriminate].
Defined.

(** X5: a list rendered inline below the maximum depth is a [ul] with one
    item per element, each holding the nested [<Lit/>] of its element at
    depth + 1, in order, and the list writes no text of its own (no
    separator, no placeholder), empty or not. *)
Theorem Lit_inline_list_children {VM : ValueModel} (settings : DataviewSettings)
  (elements : list Literal) (sourcePath : string) (depth : Z) :
  depth < maxRecursiveRenderDepth settings ->
  let out := Lit settings (LArray elements) sourcePath true depth in
  (exists items,
     out = VElement "ul" "dataview dataview-ul dataview-result-list-ul" items /\
     List.length items = List.length elements) /\
  direct_lits out =
    map (fun v => VLit v true (depth + 1) (Lit settings v sourcePath true (depth + 1)))
      elements /\
  own_texts out = [].
Proof.
  intros Hd out. unfold out. rewrite (Lit_list_inline settings sourcePath elements depth Hd).
  rewrite direct_lits_children, own_texts_children.
  destruct (list_inline_items settings sourcePath depth elements) as [H1 H2].
  repeat split; try assumption.
  eexists. split; [reflexivity | apply length_map].
Qed.

Lemma Lit_inline_list_children_witness :
  let elements := [@LString Sample.model "a"; LNull; LArray []] in
  let out := Lit Sample.settings (LArray elements) "note.md" true 0 in
  (exists items,
     out = VElement "ul" "dataview dataview-ul dataview-result-list-ul" items /\
     List.length items = List.length elements) /\
  direct_lits out =
    map (fun v => VLit v true (0 + 1) (Lit Sample.settings v "note.md" true (0 + 1)))
      elements /\
  own_texts out = [].
Proof.
  apply (Lit_inline_list_children (VM := Sample.model) Sample.settings). simpl. lia.
Defined.

(** X6: the renderer runs at most once per value: a rendering holds fewer
    nested [<Lit/>] elements than the value has values in it (itself and
    everything it contains). *)
Theorem Lit_runs_at_most_once_per_value {VM : ValueModel} (settings : DataviewSettings)
  (value : Literal) (sourcePath : string) (inline : bool) (depth : Z) :
  (nested_lits (Lit settings value sourcePath inline depth) < value_size value)%nat.
Proof.
  apply Lit_runs_bound.
Qed.

(** X7: an object whose constructor has a name other than "" and "Object"
    renders without any nested [<Lit/>], and what it renders to does not
    depend on its entries. *)
Theorem Lit_class_instance_ignores_entries {VM : ValueModel} (settings : DataviewSettings)
  (name : string) (entries entries' : list (string * Literal)) (sourcePath : string)
  (inline : bool) (depth : Z) :
  name <> "" -> name <> "Object" ->
  Lit settings (LObject (Some name) entries) sourcePath inline depth =
  Lit settings (LObject (Some name) entries') sourcePath inline depth /\
  nested_lits (Lit settings (LObject (Some name) entries) sourcePath inline depth) = O.
Proof.
  intros H1 H2.
  destruct (Z_lt_ge_dec depth (maxRecursiveRenderDepth settings)) as [Hlt | Hge].
  - destruct (Lit_class_instance settings name entries sourcePath inline depth Hlt H1 H2)
      as [Ha Hb].
    destruct (Lit_class_instance settings name entries' sourcePath inline depth Hlt H1 H2)
      as [Ha' _].
    split; [congruence | exact Hb].
  - rewrite !Lit_at_max by lia. now split.
Qed.

Lemma Lit_class_instance_ignores_entries_witness :
  Lit Sample.settings (@LObject Sample.model (Some "Page") [("title", LString "x")])
    "note.md" true 0 =
  Lit Sample.settings (@LObject Sample.model (Some "Page") []) "note.md" true 0 /\
  nested_lits
    (Lit Sample.settings (@LObject Sample.model (Some "Page") [("title", LString "x")])
       "note.md" true 0) = O.
Proof.
  apply (Lit_class_instance_ignores_entries (VM := Sample.model) Sample.settings);
    discriminate.
Defined.

(** X8: below the maximum depth a plain object without entries renders as
    the "<Empty Object>" placeholder in a block context and as an empty
    [ul] inline; a plain object renders as that placeholder exactly when it
    has no entry and the mode is not inline. *)
Theorem Lit_empty_record {VM : ValueModel} (settings : DataviewSettings)
  (constructor_name : option string) (sourcePath : string) (depth : Z) :
  depth < maxRecursiveRenderDepth settings ->
  is_class_instance constructor_name = false ->
  Lit settings (LObject constructor_name []) sourcePath true depth =
    VElement "ul" "dataview dataview-ul dataview-result-object-ul" [] /\
  forall entries inline,
    Lit settings (LObject constructor_name entries) sourcePath inline depth
      = VFragment [VText "<Empty Object>"]
    <-> inline = false /\ entries = [].
Proof.
  intros Hd Hplain. split.
  - now rewrite (Lit_record_inline settings constructor_name [] sourcePath depth Hd Hplain).
  - intros entries inline. destruct inline.
    + rewrite (Lit_record_inline settings constructor_name entries sourcePath depth Hd Hplain).
      split; [discriminate | intros [? _]; discriminate].
    + destruct entries as [| kv rest].
      * rewrite (Lit_empty_record_block settings constructor_name sourcePath depth Hd Hplain).
        split; auto.
      * rewrite (Lit_record_block settings constructor_name (kv :: rest) sourcePath depth
                   Hd Hplain) by discriminate.
        split; [discriminate | intros [_ ?]; discriminate].
Qed.

Lemma Lit_empty_record_witness :
  Lit Sample.settings (@LObject Sample.model None []) "note.md" true 0 =
    VElement "ul" "dataview dataview-ul dataview-result-object-ul" [] /\
  forall entries inline,
    Lit Sample.settings (@LObject Sample.model None entries) "note.md" inline 0
      = VFragment [VText "<Empty Object>"]
    <-> inline = false /\ entries = [].
Proof.
  apply (Lit_empty_record (VM := Sample.model) Sample.settings);
    [simpl; lia | reflexivity].
Defined.

(** X9: unwrapping is idempotent, and it leaves a container as it is
    exactly when the container holds no [p] element at any depth. *)
Theorem unwrap_paragraphs_idempotent (container : Node) :
  unwrap_paragraphs (unwrap_paragraphs container) = unwrap_paragraphs container /\
  (unwrap_paragraphs container = container <-> count_descendants "p" container = O).
Proof.
  pose proof (unwrap_paragraphs_clean container) as Hclean.
  destruct (unwrap_paragraphs_result container) as (_ & _ & Hspl).
  destruct (unwrap_paragraphs_result (unwrap_paragraphs container)) as (_ & _ & Hspl').
  split.
  - rewrite Hspl'. now apply spliced_none.
  - split; intros H.
    + now rewrite <- H.
    + rewrite Hspl. now apply spliced_none.
Qed.

(** X10: unwrapping removes [p] elements only: for every other tag name the
    number of elements below the container is unchanged. *)
Theorem unwrap_paragraphs_keeps_other_elements (tag : string) (container : Node) :
  tag <> "p" ->
  count_descendants tag (unwrap_paragraphs container) = count_descendants tag container.
Proof.
  intros Hne. destruct (unwrap_paragraphs_result container) as (_ & _ & ->).
  destruct container as [data | t children]; [reflexivity |].
  simpl. now apply splice_keeps_others.
Qed.

Lemma unwrap_paragraphs_keeps_other_elements_witness :
  let container :=
    Element "span"
      [Element "p" [TextNode "a"; Element "em" [TextNode "b"]];
       Element "ul" [Element "li" [Element "p" [Element "em" [TextNode "c"]]]]] in
  count_descendants "em" (unwrap_paragraphs container) = count_descendants "em" container.
Proof.
  apply unwrap_paragraphs_keeps_other_elements. discriminate.
Defined.

(** X11: the first load is triggered by the first render and by nothing
    else: whatever happens to a view, [compute()] has been called for the
    first load exactly once as soon as the view has been rendered, and not
    at all before. *)
Theorem first_load_happens_once {T : Type} (initial : T) (revision : Z)
  (shown : Container -> bool) (st : DataviewSettings) (events : list (Event T)) :
  let s := run initial (start initial revision shown st) events in
  first_loads s = match phase s with NotMounted => O | _ => 1%nat end.
Proof.
  apply reached_loaded.
Qed.

(** X12: the state the hook returns changes only when a compute resolves:
    no render, notification, change of the index, the container or the
    settings, and no teardown changes it.  In particular it is [initial]
    until the first resolution. *)
Theorem state_moves_only_on_resolution {T : Type} (initial : T) (revision : Z)
  (shown : Container -> bool) (st : DataviewSettings) (events later : list (Event T)) :
  forallb (fun e => negb (is_resolution e)) later = true ->
  let s := run initial (start initial revision shown st) events in
  state (run initial s later) = state s.
Proof.
  intros Hlater s.
  apply run_keeps_state; [apply reached_consistent | apply reached_loaded | exact Hlater].
Qed.

Lemma state_moves_only_on_resolution_witness :
  let s := run "initial" Sample.view [Render 1%nat; Resolved 0%nat "first"] in
  state
    (run "initial" s
       [IndexChanged 4; RefreshViews; Render 2%nat; NodeInserted 2%nat; Onunload])
  = state s.
Proof.
  apply (state_moves_only_on_resolution "initial" 0 Sample.always_shown Sample.settings
           [Render 1%nat; Resolved 0%nat "first"]
           [IndexChanged 4; RefreshViews; Render 2%nat; NodeInserted 2%nat; Onunload]).
  reflexivity.
Defined.

(** X13: computes are not ordered: of two computes in flight, the one that
    resolves last decides the state, whichever was triggered first. *)
Theorem last_resolution_wins {T : Type} (initial : T) (s : System T)
  (first second : Promise) (v w : T) :
  In first (in_flight s) -> In second (in_flight s) -> first <> second ->
  state (run initial s [Resolved first v; Resolved second w]) = w /\
  state (run initial s [Resolved second w; Resolved first v]) = v.
Proof.
  intros H1 H2 Hne. unfold run. simpl. split; apply resolve_state.
  - apply resolve_other_in_flight; [exact H2 | congruence].
  - apply resolve_other_in_flight; [exact H1 | congruence].
Qed.

Lemma last_resolution_wins_witness :
  let s := run "initial" Sample.view [Render 1%nat; IndexChanged 1; RefreshViews] in
  state (run "initial" s [Resolved 0%nat "first load"; Resolved 3%nat "refresh"])
    = "refresh" /\
  state (run "initial" s [Resolved 3%nat "refresh"; Resolved 0%nat "first load"])
    = "first load".
Proof.
  apply last_resolution_wins; simpl; auto.
Defined.

(** X14: at every moment each subscription the hook has made is either
    still registered or was released once, none was released without being
    made, and the hook holds one handler on each of the two channels while
    the view is mounted and none otherwise, however often it was rendered
    and with whichever containers. *)
Theorem subscriptions_are_paired {T : Type} (initial : T) (revision : Z)
  (shown : Container -> bool) (st : DataviewSettings) (events : list (Event T)) :
  let s := run initial (start initial revision shown st) events in
  (forall ref,
     (subscribed ref s <= 1)%nat /\
     subscribed ref s = (released ref s + if active ref s then 1 else 0)%nat) /\
  match phase s with
  | Mounted =>
      exists workEvent nodeEvent op,
        workspace_handlers s = [(workEvent, op)] /\
        node_handlers s = [(nodeEvent, op)] /\
        workEvent <> nodeEvent /\
        effect_deps s = Some (closure_container op)
  | _ => workspace_handlers s = [] /\ node_handlers s = []
  end.
Proof.
  intros s.
  destruct (reached_consistent initial revision shown st events)
    as [Hphase _ Honce Hbalance].
  fold s in Hphase, Honce, Hbalance. split.
  - intros ref. split; [apply Honce | apply Hbalance].
  - destruct (phase s).
    + tauto.
    + destruct Hphase as (w & n & op & _ & Hw & Hn & Hd & Hne & _).
      now exists w, n, op.
    + tauto.
Qed.

(** X15: after a render with a container, a became-visible notification of
    any other container changes nothing: the subscription to a previous
    container was released when the container changed. *)
Theorem other_containers_are_ignored {T : Type} (initial : T) (revision : Z)
  (shown : Container -> bool) (st : DataviewSettings) (events : list (Event T))
  (container other : Container) :
  other <> container ->
  let s := run initial (start initial revision shown st) (events ++ [Render container]) in
  step initial s (NodeInserted other) = s.
Proof.
  intros Hne s.
  assert (Hs : consistent s) by apply reached_consistent.
  simpl. rewrite deliver_closed_gate; [reflexivity |].
  assert (Hnode : phase s = Mounted ->
                  Forall (fun h => closure_container (snd h) = container) (node_handlers s)).
  { intros Hm. apply (handlers_container s container Hs).
    unfold s, run in *. rewrite fold_left_app in *. simpl in *.
    apply render_deps. now apply (render_phase initial container). }
  apply Forall_forall. intros h Hin. apply filter_In in Hin. destruct Hin as [Hin Hc].
  apply Nat.eqb_eq in Hc.
  destruct (phase s) eqn:Hphase.
  - destruct Hs as [Hp _ _ _]. rewrite Hphase in Hp. destruct Hp as (_ & _ & Hn).
    rewrite Hn in Hin. destruct Hin.
  - specialize (Hnode eq_refl). rewrite Forall_forall in Hnode.
    specialize (Hnode h Hin). congruence.
  - destruct Hs as [Hp _ _ _]. rewrite Hphase in Hp. destruct Hp as (_ & _ & Hn).
    rewrite Hn in Hin. destruct Hin.
Qed.

Lemma other_containers_are_ignored_witness :
  let s := run "initial" Sample.view
             ([Render 1%nat; IndexChanged 1; Render 2%nat; IndexChanged 2] ++ [Render 3%nat]) in
  step "initial" s (NodeInserted 1%nat) = s.
Proof.
  apply (other_containers_are_ignored "initial" 0 Sample.always_shown Sample.settings
           [Render 1%nat; IndexChanged 1; Render 2%nat; IndexChanged 2] 3%nat 1%nat).
  discriminate.
Defined.

(** X16: while [refreshEnabled] is false, or while the container of the view
    does not report itself shown, a refresh notification and a
    became-visible notification change nothing at all: no compute, and
    [lastReload] keeps its value. *)
Theorem notifications_are_gated {T : Type} (initial : T) (revision : Z)
  (shown : Container -> bool) (st : DataviewSettings) (events : list (Event T))
  (e : Event T) :
  let s := run initial (start initial revision shown st) events in
  is_notification e = true ->
  refreshEnabled (settings s) = false \/
  (exists container, effect_deps s = Some container /\ isShown s container = false) ->
  step initial s e = s.
Proof.
  intros s He Hgate.
  assert (Hs : consistent s) by apply reached_consistent.
  rewrite (step_notification initial s e He).
  apply deliver_closed_gate. apply Forall_forall. intros h Hin.
  unfold gate. destruct Hgate as [Hoff | (container & Hdeps & Hhidden)].
  - rewrite Hoff. apply andb_false_r.
  - destruct (handlers_container s container Hs Hdeps) as [Hw Hn].
    rewrite Forall_forall in Hw, Hn.
    assert (Hc : closure_container (snd h) = container).
    { destruct e; simpl in Hin; try discriminate.
      - now apply Hw.
      - apply filter_In in Hin. now apply Hn. }
    rewrite Hc, Hhidden. now rewrite andb_false_r.
Qed.

Lemma notifications_are_gated_witness :
  let s := run "initial" Sample.view
             [Render 1%nat; ShownChanged 1%nat false; IndexChanged 5] in
  step "initial" s RefreshViews = s.
Proof.
  apply (notifications_are_gated "initial" 0 Sample.always_shown Sample.settings
           [Render 1%nat; ShownChanged 1%nat false; IndexChanged 5] RefreshViews).
  - reflexivity.
  - right. exists 1%nat. split; reflexivity.
Defined.

(** X17: a notification either changes nothing or does exactly one thing:
    it stores the current revision of the index in [lastReload] and then
    calls [compute()] once.  It never touches the state, the
    subscriptions or the first-load flag. *)
Theorem notification_effect {T : Type} (initial : T) (revision : Z)
  (shown : Container -> bool) (st : DataviewSettings) (events : list (Event T))
  (e : Event T) :
  let s := run initial (start initial revision shown st) events in
  let s' := step initial s e in
  is_notification e = true ->
  s' = s \/
  (history s' = Recompute (next_id s) :: SetLastReload (index_revision s) :: history s /\
   lastReload s' = index_revision s /\
   in_flight s' = next_id s :: in_flight s /\
   state s' = state s /\ initialized s' = initialized s /\
   workspace_handlers s' = workspace_handlers s /\ node_handlers s' = node_handlers s).
Proof.
  intros s s' He. unfold s'.
  rewrite (step_notification initial s e He).
  destruct (reached_at_most_one s e (reached_consistent initial revision shown st events))
    as [-> | (h & -> & _)].
  - now left.
  - simpl. rewrite refreshOperation_gate. destruct (gate (snd h) s); [right | now left].
    repeat split.
Qed.

Lemma notification_effect_witness :
  let s := run "initial" Sample.view [Render 1%nat; IndexChanged 1] in
  let s' := step "initial" s (NodeInserted 1%nat) in
  s' = s \/
  (history s' = Recompute (next_id s) :: SetLastReload (index_revision s) :: history s /\
   lastReload s' = index_revision s /\
   in_flight s' = next_id s :: in_flight s /\
   state s' = state s /\ initialized s' = initialized s /\
   workspace_handlers s' = workspace_handlers s /\ node_handlers s' = node_handlers s).
Proof.
  apply (notification_effect "initial" 0 Sample.always_shown Sample.settings
           [Render 1%nat; IndexChanged 1] (NodeInserted 1%nat)).
  reflexivity.
Defined.

(** X18: when the index changes for the first time since the view was set
    up, the next notification, be it a refresh or the container becoming
    visible, triggers exactly one recompute, provided the container is
    shown and refresh is enabled. *)
Theorem first_change_recomputes_once {T : Type} (initial : T) (revision changed : Z)
  (shown : Container -> bool) (st : DataviewSettings) (events : list (Event T))
  (container : Container) :
  let s := run initial (start initial revision shown st) events in
  let s1 := step initial s (IndexChanged changed) in
  forallb (keeps_revision revision) events = true ->
  phase s = Mounted -> effect_deps s = Some container ->
  changed <> revision ->
  isShown s container = true -> refreshEnabled (settings s) = true ->
  recomputes (step initial s1 RefreshViews) = S (recomputes s1) /\
  recomputes (step initial s1 (NodeInserted container)) = S (recomputes s1).
Proof.
  intros s s1 Hkeep Hphase Hdeps Hne Hshown Hon.
  assert (Hs : consistent s) by apply reached_consistent.
  destruct (run_settled_revision initial (start initial revision shown st) events
              (start_settled initial revision shown st) Hkeep) as [Hset Hrev].
  fold s in Hset, Hrev. simpl in Hrev.
  destruct Hs as [Hp _ _ _]. rewrite Hphase in Hp.
  destruct Hp as (w & n & op & _ & Hw & Hn & Hd & _).
  assert (Hc : closure_container op = container) by congruence.
  assert (Hold : closure_lastReload op = revision).
  { destruct Hset as [_ Hws _]. rewrite Hw in Hws. apply Forall_inv in Hws.
    simpl in Hws. congruence. }
  assert (Hgate : gate op s1 = true).
  { unfold gate, s1. simpl. rewrite Hc, Hshown, Hon, Hold.
    assert (Hneq : (revision =? changed) = false) by (apply Z.eqb_neq; congruence).
    now rewrite Hneq. }
  assert (Hw1 : workspace_handlers s1 = [(w, op)]) by exact Hw.
  assert (Hn1 : node_handlers s1 = [(n, op)]) by exact Hn.
  change (step initial s1 RefreshViews) with (deliver (workspace_handlers s1) s1).
  change (step initial s1 (NodeInserted container))
    with (deliver (filter (fun h => Nat.eqb (closure_container (snd h)) container)
                     (node_handlers s1)) s1).
  rewrite Hw1, Hn1. cbn [filter snd]. rewrite Hc, Nat.eqb_refl.
  change (deliver [(w, op)] s1) with (refreshOperation op s1).
  change (deliver [(n, op)] s1) with (refreshOperation op s1).
  rewrite refreshOperation_recomputes, Hgate. lia.
Qed.

Lemma first_change_recomputes_once_witness :
  let s := run "initial" Sample.view [Render 1%nat; RefreshViews; Resolved 0%nat "loaded"] in
  let s1 := step "initial" s (IndexChanged 7) in
  recomputes (step "initial" s1 RefreshViews) = S (recomputes s1) /\
  recomputes (step "initial" s1 (NodeInserted 1%nat)) = S (recomputes s1).
Proof.
  apply (first_change_recomputes_once "initial" 0 7 Sample.always_shown Sample.settings
           [Render 1%nat; RefreshViews; Resolved 0%nat "loaded"] 1%nat);
    solve [reflexivity | discriminate].
Defined.

(** X19: rendering a mounted view again with the same container changes
    nothing: no first load, no new subscription, no release. *)
Theorem rerender_changes_nothing {T : Type} (initial : T) (revision : Z)
  (shown : Container -> bool) (st : DataviewSettings) (events : list (Event T))
  (container : Container) :
  let s := run initial (start initial revision shown st) events in
  phase s = Mounted -> effect_deps s = Some container ->
  step initial s (Render container) = s.
Proof.
  intros s Hphase Hdeps.
  assert (Hinit : initialized s = true).
  { apply (reached_loaded initial revision shown st events). fold s. congruence. }
  simpl. unfold render, useIndexBackedState, useEffect.
  now rewrite Hphase, Hinit, Hdeps, Nat.eqb_refl.
Qed.

Lemma rerender_changes_nothing_witness :
  let s := run "initial" Sample.view [Render 1%nat; IndexChanged 1; RefreshViews] in
  step "initial" s (Render 1%nat) = s.
Proof.
  apply (rerender_changes_nothing "initial" 0 Sample.always_shown Sample.settings
           [Render 1%nat; IndexChanged 1; RefreshViews] 1%nat); reflexivity.
Defined.

(** X20: rendering a mounted view with another container moves the
    subscriptions: both handlers of the old container are released, two
    handlers for the new container take their place, made with the value
    [lastReload] has at that render, and no compute is triggered. *)
Theorem container_change_resubscribes {T : Type} (initial : T) (revision : Z)
  (shown : Container -> bool) (st : DataviewSettings) (events : list (Event T))
  (container other : Container) :
  let s := run initial (start initial revision shown st) events in
  let s' := step initial s (Render other) in
  phase s = Mounted -> effect_deps s = Some container -> other <> container ->
  (exists workEvent nodeEvent,
     workspace_handlers s'
       = [(workEvent, {| closure_lastReload := lastReload s; closure_container := other |})] /\
     node_handlers s'
       = [(nodeEvent, {| closure_lastReload := lastReload s; closure_container := other |})]) /\
  (forall h, In h (workspace_handlers s) \/ In h (node_handlers s) ->
             released (fst h) s' = 1%nat /\ active (fst h) s' = false) /\
  computes s' = computes s.
Proof.
  intros s s' Hphase Hdeps Hne.
  assert (Hinit : initialized s = true).
  { apply (reached_loaded initial revision shown st events). fold s. congruence. }
  destruct (reached_consistent initial revision shown st events)
    as [Hp Hfresh Honce Hbalance].
  fold s in Hp, Hfresh, Honce, Hbalance. rewrite Hphase in Hp.
  destruct Hp as (w & n & op & Hcl & Hw & Hn & _ & Hwn & Hwlt & Hnlt).
  assert (Hstep : s' = effect other (cleanup s)).
  { unfold s'. simpl. unfold render, useIndexBackedState, useEffect.
    rewrite Hphase, Hinit, Hdeps.
    destruct (Nat.eqb_spec container other) as [Heq | _]; [congruence | reflexivity]. }
  assert (Hrel : forall ref, ref = w \/ ref = n -> released ref s = O).
  { intros ref Href. specialize (Hbalance ref). specialize (Honce ref).
    unfold active in Hbalance. rewrite Hw, Hn in Hbalance. simpl in Hbalance.
    destruct Href as [-> | ->]; rewrite Nat.eqb_refl in Hbalance;
      rewrite ?orb_true_r in Hbalance; simpl in Hbalance; lia. }
  assert (Hclean_w : workspace_handlers (cleanup s) = []).
  { unfold cleanup. rewrite Hcl, Hw. simpl. now rewrite Nat.eqb_refl. }
  assert (Hclean_n : node_handlers (cleanup s) = []).
  { unfold cleanup. rewrite Hcl, Hn. simpl. now rewrite Nat.eqb_refl. }
  assert (Hclean_id : next_id (cleanup s) = next_id s).
  { unfold cleanup. now rewrite Hcl. }
  assert (Hclean_last : lastReload (cleanup s) = lastReload s).
  { unfold cleanup. now rewrite Hcl. }
  rewrite Hstep. repeat split.
  - exists (next_id s), (S (next_id s)). unfold effect. cbn [workspace_handlers node_handlers].
    now rewrite Hclean_w, Hclean_n, Hclean_id, Hclean_last.
  - rewrite released_effect, (released_cleanup s w n (fst h) Hcl).
    assert (Hh : fst h = w \/ fst h = n).
    { rewrite Hw, Hn in H. simpl in H. destruct H as [[<- | []] | [<- | []]]; auto. }
    rewrite (Hrel _ Hh).
    destruct Hh as [-> | ->]; rewrite Nat.eqb_refl.
    + destruct (Nat.eqb_spec n w); [congruence | reflexivity].
    + destruct (Nat.eqb_spec w n); [congruence | reflexivity].
  - assert (Hh : fst h = w \/ fst h = n).
    { rewrite Hw, Hn in H. simpl in H. destruct H as [[<- | []] | [<- | []]]; auto. }
    unfold active, effect. cbn [workspace_handlers node_handlers].
    rewrite Hclean_w, Hclean_n, Hclean_id. cbn [app existsb fst]. rewrite !orb_false_r.
    apply orb_false_iff.
    split; apply Nat.eqb_neq; destruct Hh as [-> | ->]; lia.
  - unfold computes, effect, cleanup. rewrite Hcl. reflexivity.
Qed.

Lemma container_change_resubscribes_witness :
  let s := run "initial" Sample.view [Render 1%nat; IndexChanged 6; RefreshViews] in
  let s' := step "initial" s (Render 2%nat) in
  (exists workEvent nodeEvent,
     workspace_handlers s'
       = [(workEvent, {| closure_lastReload := lastReload s; closure_container := 2%nat |})] /\
     node_handlers s'
       = [(nodeEvent, {| closure_lastReload := lastReload s; closure_container := 2%nat |})]) /\
  (forall h, In h (workspace_handlers s) \/ In h (node_handlers s) ->
             released (fst h) s' = 1%nat /\ active (fst h) s' = false) /\
  computes s' = computes s.
Proof.
  apply (container_change_resubscribes "initial" 0 Sample.always_shown Sample.settings
           [Render 1%nat; IndexChanged 6; RefreshViews] 1%nat 2%nat);
    solve [reflexivity | discriminate].
Defined.
